(** * HighResSegMonAI: the training driver [train.py]

    A shallow embedding of the script's own logic: the dataset indexer
    (lines 56-73), the train/validation/test splitter (lines 75-84), the two
    transform pipelines (lines 88-116) and the epoch loop with its periodic
    validation and best-model checkpoint (lines 155-219).

    What the script delegates to PyTorch and MONAI (the network, the loss,
    the Dice metric, the transforms' numerics, the samplers) is the
    interface [Framework]; numbers that the script only adds, divides and
    compares (losses, metrics) are rationals.  The [print] calls and the
    switches between training and evaluation mode are left out. *)

From Stdlib Require Import ZArith QArith Floats Uint63 Ascii Lia.
From stdpp Require Import base tactics list sorting strings.

Set Default Proof Using "Type".
Local Open Scope nat_scope.

(** ** Python results

    The script has no [try]: an exception ends the run.  Only exceptions
    raised by the script's own expressions and by the construction of its
    loaders are modelled. *)

Inductive exn : Type :=
  | ZeroDivisionError   (* [x / 0] *)
  | ValueError          (* [.item()] on a tensor without exactly one element;
                           a [RandomSampler] over no items *)
  | TypeError           (* subscripting [None] *)
  | OverflowError.      (* [int(inf)] *)

Inductive result (A : Type) : Type :=
  | Ok (a : A)
  | Raise (e : exn).
Arguments Ok {A} a.
Arguments Raise {A} e.

#[global] Instance result_ret : MRet result := fun A a => Ok a.
#[global] Instance result_bind : MBind result := fun A B k r =>
  match r with
  | Ok a => k a
  | Raise e => Raise e
  end.

(** ** Dataset indexer (lines 56-73) *)

Module Indexer.

Local Open Scope string_scope.

(** A sample record: the dict [{"img": ..., "seg": ...}]. *)
Record sample_record : Type := SampleRecord {
  img : string;
  seg : string
}.

#[global] Instance sample_record_eq_dec : EqDecision sample_record.
Proof. solve_decision. Defined.

(** [s.startswith(p)] and [s.endswith("/")]. *)
Definition startswith (p s : string) : bool := String.prefix p s.

Fixpoint endswith_sep (s : string) : bool :=
  match s with
  | EmptyString => false
  | String c EmptyString => bool_decide (c = "/"%char)
  | String _ rest => endswith_sep rest
  end.

(** [os.path.join(a, b)] on POSIX: an absolute [b] replaces [a], otherwise
    the parts are joined by one separator. *)
Definition path_join2 (a b : string) : string :=
  if startswith "/" b then b
  else if bool_decide (a = "") || endswith_sep a then a ++ b
  else a ++ "/" ++ b.

Definition path_join (a : string) (parts : list string) : string :=
  foldl path_join2 a parts.

(** [needle in hay] on strings: substring test. *)
Fixpoint contains (needle hay : string) : bool :=
  String.prefix needle hay
  || match hay with
     | EmptyString => false
     | String _ rest => contains needle rest
     end.

Definition bad_subjects : list string :=
  ["g085"; "g087"; "g098"; "g109"; "g147"; "g192"].

(** [True in [bad_subj in subject_base for bad_subj in bad_subjects]] *)
Definition is_bad (subject_base : string) : bool :=
  bool_decide (true ∈ (λ bad_subj, contains bad_subj subject_base) <$> bad_subjects).

(** The directory part of the pattern [os.path.join(dpath, "data", "g*")]. *)
Definition img_path_dir (dpath : string) : string := path_join dpath ["data"].

(** [glob.has_magic]: whether a path holds one of the characters [*], [?]
    and [[], which [glob] reads as a pattern. *)
Definition has_magic (s : string) : bool :=
  existsb (λ c, contains c s) ["*"; "?"; "["].

(** [glob(os.path.join(dpath, "data", "g*"))] where the directory part is
    taken literally, that is for [has_magic (img_path_dir dpath) = false]:
    of the names [entries] found in that directory (in the order the file
    system lists them) those matching [g*], each joined to the directory.
    (A directory part with a pattern character is itself matched against
    the file system.) *)
Definition glob_subjects (dpath : string) (entries : list string) : list string :=
  path_join2 (img_path_dir dpath) <$> filter (λ name, startswith "g" name = true) entries.

(** [sorted] on strings: the order is total and antisymmetric, so every
    sorting algorithm returns the same list. *)
Definition sorted (l : list string) : list string := merge_sort String.le l.

(** The two records of a subject directory (lines 66-73). *)
Definition records_of (subject_base : string) : list sample_record :=
  let imgL := path_join subject_base ["volCentered_L.nii.gz"] in
  let imgR := path_join subject_base ["volCentered_R.nii.gz"] in
  let segL := path_join subject_base ["seg_L.nii.gz"] in
  let segR := path_join subject_base ["seg_R.nii.gz"] in
  [ {| img := imgL; seg := segL |};
    {| img := imgR; seg := segR |} ].

(** The loop of lines 62-73 over the sorted matches, [data] being the list
    built so far. *)
Fixpoint index_loop (subjects : list string) (data : list sample_record)
  : list sample_record :=
  match subjects with
  | [] => data
  | subject_base :: rest =>
      if is_bad subject_base then index_loop rest data
      else index_loop rest (data ++ records_of subject_base)
  end.

Definition index_subjects (globbed : list string) : list sample_record :=
  index_loop (sorted globbed) [].

Definition load_dataset (dpath : string) (entries : list string)
  : list sample_record :=
  index_subjects (glob_subjects dpath entries).

(** Whether the name of a subject folder (the last path component) contains
    one of the excluded substrings: the test the specification words. *)
Definition name_is_bad (name : string) : bool :=
  existsb (λ bad_subj, contains bad_subj name) bad_subjects.

End Indexer.

(** ** Splitter (lines 75-84) *)

Module Splitter.

(** *** The arithmetic as Python runs it: binary64

    [size_dataset*0.8] converts the [int] to a [float] and multiplies in
    binary64; [int(...)] truncates towards zero.  The literals are the
    doubles nearest to 0.8 and 0.9. *)

Definition float_0_8 : float := 0x1.999999999999ap-1%float.
Definition float_0_9 : float := 0x1.ccccccccccccdp-1%float.

Definition float_of_int (n : Z) : float :=
  PrimFloat.of_uint63 (Uint63.of_Z n).

(** [int(x)] for a float [x]: truncation; infinities and NaN raise. *)
Definition py_int (x : float) : result Z :=
  match Prim2SF x with
  | S754_zero _ => Ok 0%Z
  | S754_finite s m e =>
      let a := (if (0 <=? e)%Z then Z.pos m * 2 ^ e
                else Z.pos m / 2 ^ (- e))%Z in
      Ok (if s then (- a)%Z else a)
  | S754_infinity _ => Raise OverflowError
  | S754_nan => Raise ValueError
  end.

Definition train_test_split_float (size_dataset : Z) : result Z :=
  py_int (PrimFloat.mul (float_of_int size_dataset) float_0_8).

Definition train_val_split_float (size_dataset : Z) : result Z :=
  tts ← train_test_split_float size_dataset;
  py_int (PrimFloat.mul (float_of_int tts) float_0_9).

(** *** The same boundaries in exact arithmetic

    [int(n*0.8)] is the floor of [8n/10] and [int(t*0.9)] the floor of
    [9t/10]; [split_float_agrees] below checks this against the binary64
    computation for every dataset size below [float_checked]. *)

Definition train_test_split (size_dataset : nat) : nat :=
  size_dataset * 8 / 10.

Definition train_val_split (size_dataset : nat) : nat :=
  train_test_split size_dataset * 9 / 10.

(** Python slices with non-negative bounds: [data[lo:hi]], [data[:hi]],
    [data[lo:]].  Bounds past the end are clamped, [lo >= hi] gives []. *)
Definition slice {A} (lo hi : nat) (data : list A) : list A :=
  drop lo (take hi data).
Definition slice_to {A} (hi : nat) (data : list A) : list A := take hi data.
Definition slice_from {A} (lo : nat) (data : list A) : list A := drop lo data.

Record splits (A : Type) : Type := Splits {
  data_train : list A;
  data_val : list A;
  data_test : list A
}.
Arguments Splits {A} _ _ _.
Arguments data_train {A} _.
Arguments data_val {A} _.
Arguments data_test {A} _.

Definition split_dataset {A} (data : list A) : splits A :=
  let size_dataset := length data in
  let tts := train_test_split size_dataset in
  let tvs := train_val_split size_dataset in
  {| data_train := slice_to tvs data;
     data_val := slice tvs tts data;
     data_test := slice_from tts data |}.

(** The boundary the specification writes for the training slice:
    [floor(0.8 * 0.9 * N)]. *)
Definition spec_train_val_split (size_dataset : nat) : nat :=
  size_dataset * 72 / 100.

(** Checking the binary64 computation against the exact one on a range. *)
Definition float_agrees_at (n : Z) : bool :=
  match train_test_split_float n, train_val_split_float n with
  | Ok t, Ok v =>
      (t =? n * 8 / 10)%Z && (v =? (n * 8 / 10) * 9 / 10)%Z
  | _, _ => false
  end.

Fixpoint float_agrees_from (n : Z) (count : nat) : bool :=
  match count with
  | O => true
  | S count' => float_agrees_at n && float_agrees_from (n + 1) count'
  end.

Definition float_checked : nat := 100 * 100.

End Splitter.

(** ** Transform pipelines (lines 88-116) *)

Module Transforms.

Local Open Scope string_scope.

(** The dictionary transforms the script instantiates, with the arguments it
    passes.  [keys="img"] is the one-key list. *)
Inductive transform : Type :=
  | LoadNiftid (keys : list string)
  | AsChannelFirstd (keys : list string) (channel_dim : Z)
  | AddChanneld (keys : list string)
  | Resized (keys : list string) (spatial_size : list Z) (mode : string)
      (align_corners : bool)
  | ScaleIntensityd (keys : list string)
  | RandScaleIntensityd (keys : list string) (prob factors : Q)
  | RandZoomd (keys : list string) (prob min_zoom max_zoom : Q)
  | RandGaussianNoised (keys : list string) (prob : Q)
  | RandFlipd (keys : list string) (prob : Q) (spatial_axis : list Z)
  | ToTensord (keys : list string)
  | RandAffined (keys : list string) (prob : Q) (translate_range : list Q)
      (rotate_range scale_range : Q).

Definition train_transforms : list transform :=
  [ LoadNiftid ["img"; "seg"];
    AsChannelFirstd ["img"; "seg"] (-1);
    AddChanneld ["img"; "seg"];
    Resized ["img"; "seg"] [80; 120; 160]%Z "trilinear" true;
    ScaleIntensityd ["img"];
    RandScaleIntensityd ["img"] (4 # 10) (2 # 10);
    RandZoomd ["img"; "seg"] (8 # 10) (8 # 10) (12 # 10);
    RandGaussianNoised ["img"] (9 # 10);
    RandFlipd ["img"; "seg"] (3 # 10) [0; 1; 2]%Z;
    ToTensord ["img"; "seg"];
    RandAffined ["img"; "seg"] (9 # 10) [15 # 1; 25 # 1; 35 # 1]
      (3 # 10) (15 # 100) ].

Definition val_transforms : list transform :=
  [ LoadNiftid ["img"; "seg"];
    AsChannelFirstd ["img"; "seg"] (-1);
    AddChanneld ["img"; "seg"];
    Resized ["img"; "seg"] [80; 120; 160]%Z "trilinear" true;
    ScaleIntensityd ["img"];
    ToTensord ["img"; "seg"] ].

(** The [Rand*] classes are MONAI's randomizable transforms: each holds its
    own [prob] and decides per call whether it applies. *)
Definition prob_of (t : transform) : option Q :=
  match t with
  | RandScaleIntensityd _ p _ => Some p
  | RandZoomd _ p _ _ => Some p
  | RandGaussianNoised _ p => Some p
  | RandFlipd _ p _ => Some p
  | RandAffined _ p _ _ _ => Some p
  | _ => None
  end.

Definition randomizable (t : transform) : bool :=
  match prob_of t with Some _ => true | None => false end.

(** What a step does, in the specification's vocabulary. *)
Inductive step_kind : Type :=
  | LoadVolumes
  | ChannelFirst
  | InsertChannel
  | ResizeFixed3D
  | IntensityRescale
  | RandomIntensityScale
  | RandomNoise
  | RandomZoom
  | RandomFlip
  | RandomAffine
  | ConvertToTensor.

#[global] Instance step_kind_eq_dec : EqDecision step_kind.
Proof. solve_decision. Defined.

Definition kind_of (t : transform) : step_kind :=
  match t with
  | LoadNiftid _ => LoadVolumes
  | AsChannelFirstd _ _ => ChannelFirst
  | AddChanneld _ => InsertChannel
  | Resized _ _ _ _ => ResizeFixed3D
  | ScaleIntensityd _ => IntensityRescale
  | RandScaleIntensityd _ _ _ => RandomIntensityScale
  | RandZoomd _ _ _ _ => RandomZoom
  | RandGaussianNoised _ _ => RandomNoise
  | RandFlipd _ _ _ => RandomFlip
  | ToTensord _ => ConvertToTensor
  | RandAffined _ _ _ _ _ => RandomAffine
  end.

(** The order the specification gives for the training pipeline. *)
Definition spec_train_order : list step_kind :=
  [ LoadVolumes; ChannelFirst; InsertChannel; ResizeFixed3D; IntensityRescale;
    RandomIntensityScale; RandomNoise; RandomZoom; RandomFlip; RandomAffine ].

End Transforms.

(** ** What the script delegates to PyTorch and MONAI *)

Import Indexer Splitter Transforms.

Class Framework : Type := {
  (** network weights together with the optimizer state *)
  params : Type;
  (** the random state the samplers and randomizable transforms draw from *)
  rng : Type;
  (** the keyed dict of arrays a pipeline works on *)
  sample : Type;
  (** a record as the dataset hands it to the first transform *)
  of_record : sample_record -> sample;
  (** [__call__] of a transform that draws nothing *)
  apply_transform : transform -> sample -> sample;
  (** the number in [0, 1) that [randomize] of a randomizable transform
      draws by [self.R.random()] to compare with its [prob], for the random
      state its call starts from *)
  gate_draw : transform -> rng -> Q;
  (** [__call__] of a randomizable transform, for the value its gate
      [_do_transform] takes: the draws, and through an open gate the
      augmentation *)
  apply_gated : transform -> bool -> rng -> sample -> sample * rng;
  (** creating the iterator of a [DataLoader] with worker processes draws the
      base seed of the workers *)
  base_seed : rng -> rng;
  (** the order [RandomSampler] picks for one pass over a dataset *)
  shuffle : rng -> list sample_record -> list sample_record * rng;
  (** ... which visits every item once *)
  shuffle_perm : forall r l, (shuffle r l).1 ≡ₚ l;
  (** collate; [zero_grad], forward, loss, [backward], [optimizer.step()];
      returns the new parameters and [loss.item()] *)
  train_batch : params -> list sample -> params * Q;
  (** collate; [sliding_window_inference]; [dice_metric]: the value tensor *)
  infer_dice : params -> list sample -> list Q;
  initial_params : params;
  initial_rng : rng
}.

(** ** Loaders and the epoch loop (lines 118-219) *)

Section Loop.

Context {F : Framework}.

(** [a > b] *)
Definition Qgtb (a b : Q) : bool := negb (Qle_bool a b).

(** [__call__] of a randomizable transform: [randomize] sets the gate
    [_do_transform = self.R.random() < self.prob] from a draw of its own. *)
Definition apply_random (t : transform) (r : rng) (x : sample) : sample * rng :=
  match prob_of t with
  | Some prob => apply_gated t (Qgtb prob (gate_draw t r)) r x
  | None => (x, r)
  end.

(** [Compose.__call__]: the transforms in list order. *)
Definition apply_step (acc : sample * rng) (t : transform) : sample * rng :=
  if randomizable t then apply_random t acc.2 acc.1
  else (apply_transform t acc.1, acc.2).

Definition compose (ts : list transform) (r : rng) (x : sample) : sample * rng :=
  foldl apply_step (x, r) ts.

(** [Dataset.__getitem__] and the samples of one batch. *)
Definition getitem (ts : list transform) (r : rng) (record : sample_record)
  : sample * rng :=
  compose ts r (of_record record).

Fixpoint load_batch (ts : list transform) (r : rng) (records : list sample_record)
  : list sample * rng :=
  match records with
  | [] => ([], r)
  | record :: rest =>
      let '(x, r1) := getitem ts r record in
      let '(xs, r2) := load_batch ts r1 rest in
      (x :: xs, r2)
  end.

(** The batches of a [DataLoader] ([drop_last] is off): consecutive groups of
    [batch_size] indices, the last one possibly shorter. *)
Fixpoint batches_fuel {A} (fuel batch_size : nat) (l : list A) : list (list A) :=
  match fuel, l with
  | S fuel', _ :: _ =>
      take batch_size l :: batches_fuel fuel' batch_size (drop batch_size l)
  | _, _ => []
  end.

Definition batches {A} (batch_size : nat) (l : list A) : list (list A) :=
  batches_fuel (length l) batch_size l.

(** What [SummaryWriter] and [plot_2d_or_3d_image] receive. *)
Inductive event : Type :=
  | add_scalar (tag : string) (scalar_value : Q) (global_step : nat)
  | plot_image (tag : string) (step : nat).

(** The variables of the loop.  [checkpoint] lists what was saved to
    [best_metric_model.pth], oldest first: the file holds the last one. *)
Record train_state : Type := TrainState {
  model : params;
  rstate : rng;
  best_metric : Q;
  best_metric_epoch : Z;
  epoch_loss_values : list Q;
  metric_values : list Q;
  writer : list event;
  checkpoint : list params
}.

Definition val_interval : nat := 2.
Definition n_epochs : nat := 4000.
Definition train_batch_size : nat := 4.
Definition val_batch_size : nat := 1.

Definition initial_state (r : rng) : train_state :=
  {| model := initial_params;
     rstate := r;
     best_metric := (-1)%Q;
     best_metric_epoch := (-1)%Z;
     epoch_loss_values := [];
     metric_values := [];
     writer := [];
     checkpoint := [] |}.

(** [x / n] for an integer count [n]. *)
Definition py_div (x : Q) (n : nat) : result Q :=
  match n with
  | O => Raise ZeroDivisionError
  | S _ => Ok (x / inject_Z (Z.of_nat n))%Q
  end.

(** [value.item()]: the tensor must hold exactly one element. *)
Definition item (value : list Q) : result Q :=
  match value with
  | [x] => Ok x
  | _ => Raise ValueError
  end.

(** One pass of the loop body at lines 168-179. *)
Definition train_iteration (epoch epoch_len : nat)
    (acc : train_state * Q * nat) (batch_records : list sample_record)
  : train_state * Q * nat :=
  let '(s, epoch_loss, step) := acc in
  let step := S step in
  let '(batch_data, r) := load_batch train_transforms (rstate s) batch_records in
  let '(m, loss) := train_batch (model s) batch_data in
  ({| model := m;
      rstate := r;
      best_metric := best_metric s;
      best_metric_epoch := best_metric_epoch s;
      epoch_loss_values := epoch_loss_values s;
      metric_values := metric_values s;
      writer := writer s ++ [add_scalar "train_loss" loss (epoch_len * epoch + step)];
      checkpoint := checkpoint s |},
   (epoch_loss + loss)%Q, step).

(** [DataLoader(train_ds, shuffle=True, ...)] (lines 128-135) builds a
    [RandomSampler], which refuses a dataset without items. *)
Definition train_loader (data_train : list sample_record)
  : result (list sample_record) :=
  match data_train with
  | [] => Raise ValueError
  | _ :: _ => Ok data_train
  end.

(** Lines 165-182: the training part of epoch number [epoch] (from 0), over
    the loader of [data_train]; [for ... in train_loader] creates the
    iterator of the loader and the sampler picks the order of the pass. *)
Definition train_phase (data_train : list sample_record) (epoch : nat)
    (s : train_state) : result train_state :=
  data_train ← train_loader data_train;
  let '(order, r) := shuffle (base_seed (rstate s)) data_train in
  let s0 := {| model := model s;
               rstate := r;
               best_metric := best_metric s;
               best_metric_epoch := best_metric_epoch s;
               epoch_loss_values := epoch_loss_values s;
               metric_values := metric_values s;
               writer := writer s;
               checkpoint := checkpoint s |} in
  let epoch_len := length data_train / train_batch_size in
  let '(s1, epoch_loss, step) :=
    foldl (train_iteration epoch epoch_len) (s0, 0%Q, 0)
      (batches train_batch_size order) in
  epoch_loss ← py_div epoch_loss step;
  Ok {| model := model s1;
        rstate := rstate s1;
        best_metric := best_metric s1;
        best_metric_epoch := best_metric_epoch s1;
        epoch_loss_values := epoch_loss_values s1 ++ [epoch_loss];
        metric_values := metric_values s1;
        writer := writer s1;
        checkpoint := checkpoint s1 |}.

(** Lines 193-199: the body of the validation loop, batch after batch. *)
Fixpoint val_batches (m : params) (val_loader : list (list sample_record))
    (r : rng) (metric_sum : Q) (metric_count : nat) : result (rng * Q * nat) :=
  match val_loader with
  | [] => Ok (r, metric_sum, metric_count)
  | batch_records :: rest =>
      let '(val_data, r1) := load_batch val_transforms r batch_records in
      let value := infer_dice m val_data in
      let metric_count := metric_count + length value in
      x ← item value;
      val_batches m rest r1
        (metric_sum + x * inject_Z (Z.of_nat (length value)))%Q metric_count
  end.

(** Lines 192-199: the loop over the validation loader; [for ... in
    val_loader] first creates the iterator of the loader. *)
Definition val_loop (m : params) (val_loader : list (list sample_record))
    (r : rng) (metric_sum : Q) (metric_count : nat) : result (rng * Q * nat) :=
  val_batches m val_loader (base_seed r) metric_sum metric_count.

(** Lines 201-216: what a validation pass does with its mean metric. *)
Definition record_metric (epoch : nat) (metric : Q) (r : rng) (s : train_state)
  : train_state :=
  let improved := Qgtb metric (best_metric s) in
  {| model := model s;
     rstate := r;
     best_metric := if improved then metric else best_metric s;
     best_metric_epoch :=
       if improved then Z.of_nat (epoch + 1) else best_metric_epoch s;
     epoch_loss_values := epoch_loss_values s;
     metric_values := metric_values s ++ [metric];
     writer := writer s ++
       [ add_scalar "val_mean_dice" metric (epoch + 1);
         plot_image "image" (epoch + 1);
         plot_image "label" (epoch + 1);
         plot_image "output" (epoch + 1) ];
     checkpoint :=
       if improved then checkpoint s ++ [model s] else checkpoint s |}.

(** Lines 185-216: the validation pass of epoch number [epoch]. *)
Definition validation_phase (data_val : list sample_record) (epoch : nat)
    (s : train_state) : result train_state :=
  '(r, metric_sum, metric_count) ←
    val_loop (model s) (batches val_batch_size data_val) (rstate s) 0%Q 0;
  metric ← py_div metric_sum metric_count;
  Ok (record_metric epoch metric r s).

(** Whether epoch number [epoch] validates (line 184). *)
Definition validates (epoch : nat) : bool := (epoch + 1) mod val_interval =? 0.

(** The body of the [for epoch in range(n_epochs)] loop. *)
Definition run_epoch (data_train data_val : list sample_record) (epoch : nat)
    (s : train_state) : result train_state :=
  s1 ← train_phase data_train epoch s;
  if validates epoch then validation_phase data_val epoch s1 else Ok s1.

(** [count] consecutive epochs, the first of them number [epoch]. *)
Fixpoint run_epochs (data_train data_val : list sample_record)
    (count epoch : nat) (s : train_state) : result train_state :=
  match count with
  | O => Ok s
  | S count' =>
      s1 ← run_epoch data_train data_val epoch s;
      run_epochs data_train data_val count' (S epoch) s1
  end.

(** Lines 119-123: [first(check_loader)] is [None] for an empty loader, and
    subscripting it then raises; otherwise it creates the iterator of the
    loader and loads the first batch. *)
Definition check_first (data_train : list sample_record) (r : rng) : result rng :=
  match batches train_batch_size data_train with
  | [] => Raise TypeError
  | batch_records :: _ =>
      Ok (load_batch train_transforms (base_seed r) batch_records).2
  end.

(** Lines 75-219: the program from the index [data] on; it runs [epochs]
    epochs ([n_epochs] in the script). *)
Definition train_on (epochs : nat) (data : list sample_record)
  : result train_state :=
  let sp := split_dataset data in
  r ← check_first (data_train sp) initial_rng;
  _ ← train_loader (data_train sp);
  run_epochs (data_train sp) (data_val sp) epochs 0 (initial_state r).

(** The program, on the directory of the script and the names found in its
    [data] folder. *)
Definition train_for (epochs : nat) (dpath : string) (entries : list string)
  : result train_state :=
  train_on epochs (load_dataset dpath entries).

Definition main (dpath : string) (entries : list string) : result train_state :=
  train_for n_epochs dpath entries.

(** The validation entries of the monitoring log: epoch number (from 1) and
    mean metric of every [val_mean_dice] scalar, in order. *)
Definition val_entry (ev : event) : option (nat * Q) :=
  match ev with
  | add_scalar tag v step =>
      if bool_decide (tag = "val_mean_dice") then Some (step, v) else None
  | plot_image _ _ => None
  end.

Definition val_log (s : train_state) : list (nat * Q) :=
  omap val_entry (writer s).

(** ** Notions used to state the properties of the loop *)

(** The bookkeeping a training pass leaves alone. *)
Definition same_bookkeeping s s' : Prop :=
  best_metric s' = best_metric s /\
  best_metric_epoch s' = best_metric_epoch s /\
  metric_values s' = metric_values s /\
  checkpoint s' = checkpoint s /\
  val_log s' = val_log s.

(** The Dice metric with mean reduction returns a one-element tensor whose
    value is not negative. *)
Definition dice_ok : Prop :=
  forall (p : params) (xs : list sample),
    exists v : Q, infer_dice p xs = [v] /\ (0 <= v)%Q.

(** The epoch numbers (from 1) logged by the validating epochs among
    [count] epochs starting with number [epoch] (from 0). *)
Definition validation_epochs (count epoch : nat) : list nat :=
  (λ e, e + 1) <$> filter (λ e, validates e = true) (seq epoch count).

(** [best] was logged at epoch [best_epoch], every earlier entry is strictly
    below it and no later entry exceeds it. *)
Definition best_of_log (log : list (nat * Q)) (best : Q) (best_epoch : Z) : Prop :=
  exists (l1 : list (nat * Q)) (e : nat) (l2 : list (nat * Q)),
    log = l1 ++ (e, best) :: l2 /\
    best_epoch = Z.of_nat e /\
    (forall e' m, (e', m) ∈ l1 -> (m < best)%Q) /\
    (forall e' m, (e', m) ∈ l2 -> (m <= best)%Q).

(** The bookkeeping agrees with the log: nothing logged and the initial
    values, or the best entry of the log. *)
Definition log_inv (s : train_state) : Prop :=
  (val_log s = [] /\ best_metric s = (-1)%Q /\ best_metric_epoch s = (-1)%Z)
  \/ best_of_log (val_log s) (best_metric s) (best_metric_epoch s).

(** The training entries of the monitoring log: global step and loss of
    every [train_loss] scalar, in order. *)
Definition train_entry (ev : event) : option (nat * Q) :=
  match ev with
  | add_scalar tag v step =>
      if bool_decide (tag = "train_loss") then Some (step, v) else None
  | plot_image _ _ => None
  end.

Definition train_log (s : train_state) : list (nat * Q) :=
  omap train_entry (writer s).

(** The global steps the batches of epoch number [epoch] are logged at, for
    [len] training records. *)
Definition epoch_steps (len epoch : nat) : list nat :=
  (λ i, len / train_batch_size * epoch + i)
    <$> seq 1 ((len + 3) / train_batch_size).

(** The Dice metric returns a one-element tensor with a value in [0, 1]. *)
Definition dice_unit : Prop :=
  forall (p : params) (xs : list sample),
    exists v : Q, infer_dice p xs = [v] /\ (0 <= v)%Q /\ (v <= 1)%Q.

End Loop.

(** ** Concrete inputs used below *)

(** A checkout directory and data folders with three and with seven
    subjects. *)
Definition repo_dir : string := "/home/user/HighResSegMonAI".
Definition three_subjects : list string := ["g002"; "g001"; "g003"].
Definition seven_subjects : list string :=
  ["g001"; "g002"; "g003"; "g004"; "g005"; "g006"; "g007"].

(** The same checkout under a directory whose name happens to contain one of
    the excluded substrings. *)
Definition img085_dir : string := "/srv/img085/HighResSegMonAI".

(** The six records of three subjects, and their training and validation
    slices. *)
Definition three_subject_data : list sample_record :=
  load_dataset repo_dir three_subjects.
Definition three_subject_train : list sample_record :=
  data_train (split_dataset three_subject_data).
Definition three_subject_val : list sample_record :=
  data_val (split_dataset three_subject_data).

(** A small framework to run the loop on: the parameters count the optimizer
    steps, the loss of a step is [1/(steps+1)], the Dice value of a batch is
    [(steps mod 3)/4], the sampler reverses the list, the random state
    counts the draws and no augmentation changes a sample. *)
Definition toy_framework : Framework :=
  {| params := nat;
     rng := nat;
     sample := sample_record;
     of_record := λ record, record;
     apply_transform := λ _ x, x;
     gate_draw := λ _ r, Z.of_nat (r mod 4) # 4;
     apply_gated := λ _ _ r x, (x, S r);
     base_seed := S;
     shuffle := λ r l, (reverse l, S r);
     shuffle_perm := λ _ l, reverse_Permutation l;
     train_batch := λ p _, (S p, 1 # Pos.of_succ_nat p);
     infer_dice := λ p _, [Z.of_nat (p mod 3) # 4];
     initial_params := 0;
     initial_rng := 0 |}.

(** Twelve records of six subjects: eight of them are training records. *)
Definition six_subjects : list string :=
  ["g001"; "g002"; "g003"; "g004"; "g005"; "g006"].
Definition six_subject_train : list sample_record :=
  data_train (split_dataset (load_dataset repo_dir six_subjects)).
Definition six_subject_val : list sample_record :=
  data_val (split_dataset (load_dataset repo_dir six_subjects)).

Definition toy_state : @train_state toy_framework :=
  initial_state (F:=toy_framework) 0.

(** * Theorems *)

Lemma bind_Ok {A B} (r : result A) (k : A -> result B) (b : B) :
  r ≫= k = Ok b <-> exists a, r = Ok a /\ k a = Ok b.
Proof.
  destruct r as [a|e]; simpl; split.
  - intros Hk. exists a. split; [reflexivity|exact Hk].
  - intros (a' & Ha & Hk). inversion Ha; subst. exact Hk.
  - discriminate.
  - intros (a' & Ha & _). discriminate.
Qed.

(** ** The indexer *)

Section IndexerFacts.

Local Open Scope string_scope.
Implicit Types (a b s needle hay name : string).

Lemma prefix_nil_l s : String.prefix "" s = true.
Proof. destruct s; reflexivity. Qed.

Lemma prefix_cons_cons (c c' : ascii) a b :
  String.prefix (String c a) (String c' b) = true <-> c = c' /\ String.prefix a b = true.
Proof.
  simpl. destruct (ascii_dec c c') as [->|Hne]; split.
  - auto.
  - intros [_ H]; exact H.
  - discriminate.
  - intros [H _]; contradiction.
Qed.

Lemma prefix_app_r needle hay s :
  String.prefix needle hay = true -> String.prefix needle (hay ++ s) = true.
Proof.
  revert hay. induction needle as [|c needle IH]; intros hay Hp.
  - apply prefix_nil_l.
  - destruct hay as [|c' hay]; [discriminate|].
    apply prefix_cons_cons in Hp as [-> Hp].
    change (String c' hay ++ s) with (String c' (hay ++ s)).
    apply prefix_cons_cons. split; [reflexivity|]. apply IH. exact Hp.
Qed.

Lemma contains_nil_l hay : contains "" hay = true.
Proof. destruct hay; reflexivity. Qed.

Lemma contains_cons needle (c : ascii) hay :
  contains needle (String c hay)
  = String.prefix needle (String c hay) || contains needle hay.
Proof. reflexivity. Qed.

Lemma contains_app_r needle hay s :
  contains needle hay = true -> contains needle (hay ++ s) = true.
Proof.
  induction hay as [|c hay IH]; intros Hc.
  - simpl in Hc. rewrite orb_false_r in Hc.
    destruct needle; [apply contains_nil_l|discriminate].
  - change (String c hay ++ s) with (String c (hay ++ s)).
    rewrite contains_cons in *. apply orb_true_iff in Hc as [Hp|Hc].
    + apply orb_true_iff. left.
      apply (prefix_app_r needle (String c hay) s Hp).
    + apply orb_true_iff. right. apply IH. exact Hc.
Qed.

Lemma contains_app_l needle s hay :
  contains needle hay = true -> contains needle (s ++ hay) = true.
Proof.
  intros Hc. induction s as [|c s IH]; [exact Hc|].
  change (String c s ++ hay) with (String c (s ++ hay)).
  rewrite contains_cons, IH. apply orb_true_r.
Qed.

(** A needle without separator found in [a/b] lies in [a] or in [b]. *)
Lemma prefix_sep_inv needle a b :
  contains "/" needle = false ->
  String.prefix needle (a ++ "/" ++ b) = true -> String.prefix needle a = true.
Proof.
  revert a. induction needle as [|c needle IH]; intros a Hsep Hp.
  - apply prefix_nil_l.
  - rewrite contains_cons in Hsep. apply orb_false_iff in Hsep as [Hc Hsep].
    destruct a as [|c' a].
    + change ("" ++ "/" ++ b) with (String "/" b) in Hp.
      apply prefix_cons_cons in Hp as [-> _].
      assert (String.prefix "/" (String "/" needle) = true) as Hp'
        by (apply prefix_cons_cons; split; [reflexivity|apply prefix_nil_l]).
      congruence.
    + change (String c' a ++ "/" ++ b) with (String c' (a ++ "/" ++ b)) in Hp.
      apply prefix_cons_cons in Hp as [-> Hp].
      apply prefix_cons_cons. split; [reflexivity|]. apply IH; assumption.
Qed.

Lemma contains_sep_inv needle a b :
  contains "/" needle = false ->
  contains needle (a ++ "/" ++ b) = true ->
  contains needle a = true \/ contains needle b = true.
Proof.
  intros Hsep. induction a as [|c a IH]; intros Hc.
  - change ("" ++ "/" ++ b) with (String "/" b) in Hc.
    rewrite contains_cons in Hc. apply orb_true_iff in Hc as [Hp|Hc]; [|auto].
    left. apply (prefix_sep_inv needle "" b Hsep) in Hp.
    destruct needle; [reflexivity|discriminate].
  - change (String c a ++ "/" ++ b) with (String c (a ++ "/" ++ b)) in Hc.
    rewrite contains_cons in Hc. apply orb_true_iff in Hc as [Hp|Hc].
    + left. rewrite contains_cons. apply orb_true_iff. left.
      apply (prefix_sep_inv needle (String c a) b Hsep). exact Hp.
    + destruct (IH Hc) as [Ha|Hb]; [|auto].
      left. rewrite contains_cons, Ha. apply orb_true_r.
Qed.

Lemma is_bad_iff s :
  is_bad s = true <-> exists bad_subj, bad_subj ∈ bad_subjects /\ contains bad_subj s = true.
Proof.
  unfold is_bad. rewrite bool_decide_eq_true, list_elem_of_fmap.
  split; intros (b & H1 & H2); exists b; auto.
Qed.

Lemma name_is_bad_iff name :
  name_is_bad name = true
  <-> exists bad_subj, bad_subj ∈ bad_subjects /\ contains bad_subj name = true.
Proof.
  unfold name_is_bad. rewrite existsb_exists.
  split; intros (b & H1 & H2); exists b; split; auto;
    apply list_elem_of_In; exact H1.
Qed.

Lemma bad_subjects_no_sep bad_subj :
  bad_subj ∈ bad_subjects -> contains "/" bad_subj = false.
Proof.
  unfold bad_subjects. intros Hin.
  repeat (apply elem_of_cons in Hin as [->|Hin]; [reflexivity|]).
  apply elem_of_nil in Hin. contradiction.
Qed.

(** The test the script runs on the path of a subject, against the test on
    its folder name. *)
Lemma is_bad_join_name dir name :
  name_is_bad name = true -> is_bad (dir ++ "/" ++ name) = true.
Proof.
  intros Hn. apply name_is_bad_iff in Hn as (b & Hb & Hc).
  apply is_bad_iff. exists b. split; [exact Hb|].
  apply contains_app_l. apply (contains_app_l b "/" name). exact Hc.
Qed.

Lemma is_bad_join dir name :
  is_bad (dir ++ "/" ++ name) = is_bad dir || name_is_bad name.
Proof.
  apply eq_true_iff_eq. rewrite orb_true_iff, !is_bad_iff, name_is_bad_iff.
  split.
  - intros (b & Hb & Hc).
    destruct (contains_sep_inv b dir name (bad_subjects_no_sep b Hb) Hc); eauto.
  - intros [(b & Hb & Hc)|(b & Hb & Hc)]; exists b; (split; [exact Hb|]).
    + apply contains_app_r. exact Hc.
    + apply contains_app_l. apply (contains_app_l b "/" name). exact Hc.
Qed.

(** *** Paths of the subject folders *)

Lemma string_app_assoc a b s : (a ++ b) ++ s = a ++ b ++ s.
Proof.
  induction a as [|c a IH]; [reflexivity|].
  change ((String c a ++ b) ++ s) with (String c ((a ++ b) ++ s)).
  rewrite IH. reflexivity.
Qed.

Lemma endswith_sep_app a (c : ascii) s :
  endswith_sep (a ++ String c s) = endswith_sep (String c s).
Proof.
  induction a as [|c' a IH]; [reflexivity|].
  change (String c' a ++ String c s) with (String c' (a ++ String c s)).
  rewrite <- IH.
  destruct a; reflexivity.
Qed.

Lemma img_path_dir_data dpath : exists a, img_path_dir dpath = a ++ "data".
Proof.
  unfold img_path_dir, path_join, path_join2; simpl.
  destruct (bool_decide (dpath = "") || endswith_sep dpath).
  - exists dpath. reflexivity.
  - exists (dpath ++ "/"). rewrite string_app_assoc. reflexivity.
Qed.

Lemma startswith_g_not_sep name :
  startswith "g" name = true -> startswith "/" name = false.
Proof.
  unfold startswith. destruct name as [|c name]; [discriminate|].
  intros Hg. apply prefix_cons_cons in Hg as [<- _]. reflexivity.
Qed.

Lemma not_nil_app_data a : a ++ "data" <> "".
Proof. destruct a; discriminate. Qed.

(** A matching name is joined to the data directory by one separator. *)
Lemma path_join2_subject dpath name :
  startswith "g" name = true ->
  path_join2 (img_path_dir dpath) name = img_path_dir dpath ++ "/" ++ name.
Proof.
  intros Hg. unfold path_join2.
  rewrite (startswith_g_not_sep name Hg).
  destruct (img_path_dir_data dpath) as [a ->].
  rewrite (endswith_sep_app a "d" "ata").
  rewrite bool_decide_eq_false_2 by apply not_nil_app_data.
  reflexivity.
Qed.

Lemma glob_subjects_join dpath entries :
  glob_subjects dpath entries
  = (λ name, img_path_dir dpath ++ "/" ++ name)
    <$> filter (λ name, startswith "g" name = true) entries.
Proof.
  unfold glob_subjects.
  apply Forall_fmap_ext, Forall_forall.
  intros name Hin. apply list_elem_of_filter in Hin as [Hg _].
  apply path_join2_subject. exact Hg.
Qed.

(** *** Sorting *)

Lemma sorted_Sorted (l : list string) : Sorted String.le (sorted l).
Proof. apply Sorted_merge_sort. apply _. Qed.

Lemma sorted_Permutation (l : list string) : sorted l ≡ₚ l.
Proof. apply merge_sort_Permutation. Qed.

Lemma sorted_unique (l k : list string) :
  Sorted String.le k -> k ≡ₚ l -> sorted l = k.
Proof.
  intros Hk Hp.
  apply (Sorted_unique String.le); [apply sorted_Sorted|exact Hk|].
  rewrite sorted_Permutation. symmetry. exact Hp.
Qed.

Lemma Sorted_filter (P : string -> Prop) `{!forall x, Decision (P x)}
    (l : list string) :
  Sorted String.le l -> Sorted String.le (filter P l).
Proof.
  intros Hs. apply Sorted_StronglySorted in Hs; [|apply _].
  apply StronglySorted_Sorted.
  induction Hs as [|x l Hl IH Hx]; [constructor|].
  rewrite filter_cons. destruct (decide (P x)); [|exact IH].
  constructor; [exact IH|].
  apply Forall_forall. intros y Hy. apply list_elem_of_filter in Hy as [_ Hy].
  rewrite Forall_forall in Hx. apply Hx. exact Hy.
Qed.

(** Filtering commutes with sorting. *)
Lemma sorted_filter (P : string -> Prop) `{!forall x, Decision (P x)}
    (l : list string) :
  filter P (sorted l) = sorted (filter P l).
Proof.
  symmetry. apply sorted_unique.
  - apply Sorted_filter. apply sorted_Sorted.
  - apply filter_Permutation. apply sorted_Permutation.
Qed.

Lemma compare_app_l (a s1 s2 : string) :
  String.compare (a ++ s1) (a ++ s2) = String.compare s1 s2.
Proof.
  induction a as [|c a IH]; [reflexivity|].
  change (String c a ++ s1) with (String c (a ++ s1)).
  change (String c a ++ s2) with (String c (a ++ s2)).
  simpl. unfold Ascii.compare. rewrite N.compare_refl. exact IH.
Qed.

Lemma le_app_l (a s1 s2 : string) :
  String.le s1 s2 -> String.le (a ++ s1) (a ++ s2).
Proof. unfold String.le, String.leb. rewrite compare_app_l. auto. Qed.

(** Sorting the paths of one directory is sorting the names. *)
Lemma sorted_fmap_app (a : string) (l : list string) :
  sorted ((λ name, a ++ name) <$> l) = (λ name, a ++ name) <$> sorted l.
Proof.
  apply sorted_unique.
  - apply (Sorted_fmap _ String.le String.le).
    + intros x y. apply le_app_l.
    + apply sorted_Sorted.
  - apply fmap_Permutation. apply sorted_Permutation.
Qed.

(** *** The loop *)

Lemma index_loop_spec (subjects : list string) :
  forall data,
    index_loop subjects data
    = (data ++ (filter (λ subject_base, is_bad subject_base = false) subjects
                ≫= records_of))%list.
Proof.
  induction subjects as [|subject_base rest IH]; intros data.
  - simpl. rewrite app_nil_r. reflexivity.
  - simpl index_loop. rewrite filter_cons.
    destruct (is_bad subject_base) eqn:Hbad.
    + rewrite decide_False by discriminate. apply IH.
    + rewrite decide_True by reflexivity.
      rewrite IH, bind_cons, app_assoc. reflexivity.
Qed.

Lemma filter_fmap_join (P : string -> Prop) `{!forall x, Decision (P x)}
    (f : string -> string) (l : list string) :
  filter P (f <$> l) = f <$> filter (λ x, P (f x)) l.
Proof.
  induction l as [|x l IH]; [reflexivity|].
  rewrite fmap_cons, !filter_cons, IH.
  destruct (decide (P (f x))); reflexivity.
Qed.

(** The index: the matching names in sorted order, those whose path passes
    the exclusion test, two records each. *)
Lemma load_dataset_spec dpath entries :
  load_dataset dpath entries
  = sorted (filter (λ name, startswith "g" name = true) entries)
    ≫= (λ name,
          if is_bad (img_path_dir dpath ++ "/" ++ name) then []
          else records_of (img_path_dir dpath ++ "/" ++ name)).
Proof.
  unfold load_dataset, index_subjects.
  rewrite index_loop_spec, app_nil_l, glob_subjects_join.
  set (names := filter (λ name, startswith "g" name = true) entries).
  rewrite (Forall_fmap_ext_1 (λ name, img_path_dir dpath ++ "/" ++ name)
             (λ name, (img_path_dir dpath ++ "/") ++ name) names)
    by (apply Forall_forall; intros; symmetry; apply string_app_assoc).
  rewrite sorted_fmap_app.
  induction (sorted names) as [|name l IH]; [reflexivity|].
  rewrite fmap_cons, filter_cons, bind_cons, <- IH, string_app_assoc.
  destruct (is_bad (img_path_dir dpath ++ "/" ++ name)).
  - rewrite decide_False by discriminate. reflexivity.
  - rewrite decide_True by reflexivity. rewrite bind_cons. reflexivity.
Qed.

Lemma bind_if_filter {B} (b : string -> bool) (f : string -> list B)
    (l : list string) :
  l ≫= (λ x, if b x then [] else f x) = filter (λ x, b x = false) l ≫= f.
Proof.
  induction l as [|x l IH]; [reflexivity|].
  rewrite bind_cons, filter_cons, IH.
  destruct (b x).
  - rewrite decide_False by discriminate. reflexivity.
  - rewrite decide_True by reflexivity. rewrite bind_cons. reflexivity.
Qed.

Lemma load_dataset_filter dpath entries :
  load_dataset dpath entries
  = filter (λ name, is_bad (img_path_dir dpath ++ "/" ++ name) = false)
      (sorted (filter (λ name, startswith "g" name = true) entries))
    ≫= (λ name, records_of (img_path_dir dpath ++ "/" ++ name)).
Proof.
  rewrite load_dataset_spec.
  apply (bind_if_filter (λ name, is_bad (img_path_dir dpath ++ "/" ++ name))).
Qed.

(** X5: when the path of the data directory holds no pattern character of
    [glob] and contains none of the excluded substrings, the index holds
    exactly the two records of every matching folder whose name contains
    none of them, in sorted order. *)
Lemma load_dataset_clean_directory dpath entries :
  has_magic (img_path_dir dpath) = false ->
  is_bad (img_path_dir dpath) = false ->
  load_dataset dpath entries
  = sorted (filter (λ name, name_is_bad name = false /\ startswith "g" name = true)
              entries)
    ≫= (λ name, records_of (img_path_dir dpath ++ "/" ++ name)).
Proof.
  intros _ Hdir. rewrite load_dataset_filter.
  rewrite <- (list_filter_filter (λ name, name_is_bad name = false)
                (λ name, startswith "g" name = true)).
  rewrite <- (sorted_filter (λ name, name_is_bad name = false)).
  f_equal. apply list_filter_iff. intros name.
  rewrite is_bad_join, Hdir. reflexivity.
Qed.

(** X4: folders whose name contains an excluded substring contribute nothing:
    the index is the same with them removed from the listing. *)
Lemma load_dataset_bad_names dpath entries :
  load_dataset dpath entries
  = load_dataset dpath (filter (λ name, name_is_bad name = false) entries).
Proof.
  rewrite !load_dataset_filter. f_equal.
  set (good := λ name, is_bad (img_path_dir dpath ++ "/" ++ name) = false).
  rewrite <- (list_filter_filter_l good (λ name, name_is_bad name = false)).
  - f_equal. rewrite (sorted_filter (λ name, name_is_bad name = false)). f_equal.
    rewrite !list_filter_filter. apply list_filter_iff. intros name. tauto.
  - intros name. unfold good. rewrite is_bad_join.
    intros Hor. apply orb_false_iff in Hor as [_ Hn]. exact Hn.
Qed.


End IndexerFacts.

(** C3: a subject folder whose name contains none of the excluded substrings
    yields its two records under an ordinary checkout directory, but no
    record at all when the path of the checkout directory itself contains
    one of them ([img085] contains [g085]): the script tests the whole path
    of the folder, not its name. *)
Lemma indexer_skips_clean_subject_under_bad_directory :
  startswith "g" "g001" = true /\
  name_is_bad "g001" = false /\
  load_dataset repo_dir ["g001"%string]
  = records_of "/home/user/HighResSegMonAI/data/g001" /\
  is_bad (img_path_dir img085_dir) = true /\
  load_dataset img085_dir ["g001"%string] = [].
Proof. vm_compute. auto. Qed.

(** ** The splitter *)

Section SplitterFacts.

Context {A : Type}.
Implicit Types data : list A.

Lemma floor_div_bounds (a b : nat) :
  b <> 0 -> b * (a / b) <= a < b * (a / b) + b.
Proof.
  intros Hb.
  pose proof (Nat.div_mod_eq a b) as Hdm.
  pose proof (Nat.mod_upper_bound a b Hb) as Hlt.
  lia.
Qed.

Lemma train_test_split_floor (N : nat) :
  10 * train_test_split N <= 8 * N < 10 * train_test_split N + 10.
Proof.
  unfold train_test_split.
  pose proof (floor_div_bounds (N * 8) 10). lia.
Qed.

Lemma train_val_split_floor (N : nat) :
  10 * train_val_split N <= 9 * train_test_split N < 10 * train_val_split N + 10.
Proof.
  unfold train_val_split.
  pose proof (floor_div_bounds (train_test_split N * 9) 10). lia.
Qed.

Lemma split_order (N : nat) :
  train_val_split N <= train_test_split N <= N.
Proof.
  pose proof (train_test_split_floor N).
  pose proof (train_val_split_floor N). lia.
Qed.

Lemma length_data_train data :
  length (data_train (split_dataset data)) = train_val_split (length data).
Proof.
  pose proof (split_order (length data)).
  unfold split_dataset, slice_to; simpl. rewrite length_take. lia.
Qed.

Lemma length_data_val data :
  length (data_val (split_dataset data))
  = train_test_split (length data) - train_val_split (length data).
Proof.
  pose proof (split_order (length data)).
  unfold split_dataset, slice; simpl. rewrite length_drop, length_take. lia.
Qed.

Lemma length_data_test data :
  length (data_test (split_dataset data))
  = length data - train_test_split (length data).
Proof. unfold split_dataset, slice_from; simpl. apply length_drop. Qed.

Lemma split_dataset_app data :
  data_train (split_dataset data) ++ data_val (split_dataset data)
    ++ data_test (split_dataset data) = data.
Proof.
  pose proof (split_order (length data)) as [Hvt _].
  unfold split_dataset, slice_to, slice, slice_from; simpl.
  rewrite drop_take_drop by exact Hvt.
  apply take_drop.
Qed.

Lemma lookup_data_train data i :
  data_train (split_dataset data) !! i
  = if decide (i < train_val_split (length data)) then data !! i else None.
Proof. unfold split_dataset, slice_to; simpl. apply lookup_take. Qed.

Lemma lookup_data_val data i :
  data_val (split_dataset data) !! i
  = if decide (train_val_split (length data) + i < train_test_split (length data))
    then data !! (train_val_split (length data) + i) else None.
Proof.
  unfold split_dataset, slice; simpl.
  rewrite lookup_drop. apply lookup_take.
Qed.

Lemma lookup_data_test data i :
  data_test (split_dataset data) !! i
  = data !! (train_test_split (length data) + i).
Proof. unfold split_dataset, slice_from; simpl. apply lookup_drop. Qed.

(** C1 (as amended): the test boundary is [floor(0.8 N)] and the validation
    boundary is [floor(0.9 * floor(0.8 N))], the floor being taken twice;
    train, validation and test are the index ranges [[0, tvs)], [[tvs, tts)]
    and [[tts, N)] of the input, in input order; and the sizes of the slices
    depend on the length of the input only. *)
Theorem split_dataset_boundaries data :
  let N := length data in
  let tts := train_test_split N in
  let tvs := train_val_split N in
  let sp := split_dataset data in
  (10 * tts <= 8 * N < 10 * tts + 10) /\
  (10 * tvs <= 9 * tts < 10 * tvs + 10) /\
  (tvs <= tts <= N) /\
  (forall i, data_train sp !! i = if decide (i < tvs) then data !! i else None) /\
  (forall i, data_val sp !! i
             = if decide (tvs + i < tts) then data !! (tvs + i) else None) /\
  (forall i, data_test sp !! i = data !! (tts + i)) /\
  (forall data' : list A, length data' = N ->
     length (data_train (split_dataset data')) = length (data_train sp) /\
     length (data_val (split_dataset data')) = length (data_val sp) /\
     length (data_test (split_dataset data')) = length (data_test sp)).
Proof.
  intros N tts tvs sp. subst N tts tvs sp.
  split; [apply train_test_split_floor|].
  split; [apply train_val_split_floor|].
  split; [apply split_order|].
  split; [intros i; apply lookup_data_train|].
  split; [intros i; apply lookup_data_val|].
  split; [intros i; apply lookup_data_test|].
  intros data' Hlen.
  rewrite !length_data_train, !length_data_val, !length_data_test, Hlen.
  auto.
Qed.

(** C2 (as amended): for at least ten records the three slices are
    non-empty, follow one another in the input (train ++ validation ++ test
    is the input, so the sizes add up to N and the order is kept), cover
    disjoint index ranges (and share no element when the records are pairwise
    distinct); the validation size lies in (0.08 N - 1, 0.08 N + 1) and the
    test size in [0.2 N, 0.2 N + 1), within one record of 0.08 N and 0.2 N,
    while the training size, whose floor is taken twice, is [floor(0.72 N)]
    or one less and lies in (0.72 N - 2, 0.72 N]. *)
Theorem split_dataset_partition data :
  10 <= length data ->
  let N := length data in
  let sp := split_dataset data in
  let n_train := length (data_train sp) in
  let n_val := length (data_val sp) in
  let n_test := length (data_test sp) in
  data_train sp ++ data_val sp ++ data_test sp = data /\
  n_train + n_val + n_test = N /\
  (forall p x, data !! p = Some x ->
     (p < n_train /\ data_train sp !! p = Some x) \/
     (n_train <= p < n_train + n_val /\ data_val sp !! (p - n_train) = Some x) \/
     (n_train + n_val <= p /\ data_test sp !! (p - n_train - n_val) = Some x)) /\
  (NoDup data ->
     (forall x, x ∈ data_train sp -> x ∉ data_val sp) /\
     (forall x, x ∈ data_train sp -> x ∉ data_test sp) /\
     (forall x, x ∈ data_val sp -> x ∉ data_test sp)) /\
  (72 * N < 100 * n_train + 200 /\ 100 * n_train <= 72 * N /\
   spec_train_val_split N <= n_train + 1 /\ n_train <= spec_train_val_split N) /\
  (8 * N < 100 * n_val + 100 /\ 100 * n_val < 8 * N + 100) /\
  (20 * N <= 100 * n_test /\ 100 * n_test < 20 * N + 100) /\
  (0 < n_train /\ 0 < n_val /\ 0 < n_test).
Proof.
  intros HN N sp n_train n_val n_test.
  subst n_train n_val n_test sp.
  rewrite length_data_train, length_data_val, length_data_test.
  fold N.
  pose proof (train_test_split_floor N) as Ht.
  pose proof (train_val_split_floor N) as Hv.
  pose proof (split_order N) as Ho.
  split; [apply split_dataset_app|].
  split; [lia|].
  split.
  { intros p x Hp.
    assert (p < N) as HpN by (apply lookup_lt_Some in Hp; exact Hp).
    rewrite lookup_data_train, lookup_data_val, lookup_data_test. fold N.
    destruct (decide (p < train_val_split N)) as [Hlt|Hge].
    - left. split; [exact Hlt|]. exact Hp.
    - destruct (decide (p < train_test_split N)) as [Hlt'|Hge'].
      + right; left. split; [lia|].
        rewrite decide_True by lia.
        replace (train_val_split N + (p - train_val_split N)) with p by lia.
        exact Hp.
      + right; right. split; [lia|].
        replace (train_test_split N
                 + (p - train_val_split N
                    - (train_test_split N - train_val_split N))) with p by lia.
        exact Hp. }
  split.
  { intros Hnd.
    rewrite <- (split_dataset_app data) in Hnd.
    apply NoDup_app in Hnd as (_ & Htr & Hnd).
    apply NoDup_app in Hnd as (_ & Hva & _).
    split; [|split].
    - intros x Hx Hx'. apply (Htr x Hx). apply elem_of_app. left. exact Hx'.
    - intros x Hx Hx'. apply (Htr x Hx). apply elem_of_app. right. exact Hx'.
    - exact Hva. }
  pose proof (floor_div_bounds (N * 72) 100) as Hs.
  unfold spec_train_val_split.
  lia.
Qed.

(** Which dataset sizes leave the training or the validation slice empty. *)
Lemma data_train_nil_iff data :
  data_train (split_dataset data) = [] <-> length data <= 2.
Proof.
  rewrite <- length_zero_iff_nil, length_data_train.
  pose proof (train_test_split_floor (length data)).
  pose proof (train_val_split_floor (length data)).
  lia.
Qed.

Lemma data_val_nil_iff data :
  data_val (split_dataset data) = [] <-> length data <= 1.
Proof.
  rewrite <- length_zero_iff_nil, length_data_val.
  pose proof (train_test_split_floor (length data)).
  pose proof (train_val_split_floor (length data)).
  lia.
Qed.

End SplitterFacts.

Lemma float_agrees_from_spec (count : nat) :
  forall n : Z, float_agrees_from n count = true ->
  forall k : Z, (n <= k < n + Z.of_nat count)%Z -> float_agrees_at k = true.
Proof.
  induction count as [|count IH]; intros n Hall k Hk.
  - lia.
  - simpl in Hall. apply andb_true_iff in Hall as [Hn Hrest].
    destruct (Z.eq_dec k n) as [->|Hne]; [exact Hn|].
    apply (IH (n + 1)%Z Hrest). lia.
Qed.

(** X8: for every dataset size below [float_checked] the binary64
    computation of lines 76-77 returns the boundaries of the exact model,
    [floor(8 N / 10)] and [floor(9 tts / 10)]. *)
Lemma split_float_agrees (N : nat) :
  N < float_checked ->
  train_test_split_float (Z.of_nat N) = Ok (Z.of_nat (train_test_split N)) /\
  train_val_split_float (Z.of_nat N) = Ok (Z.of_nat (train_val_split N)).
Proof.
  intros HN.
  assert (float_agrees_from 0 float_checked = true) as Hall
    by (vm_compute; reflexivity).
  pose proof (float_agrees_from_spec _ _ Hall (Z.of_nat N)) as Hat.
  unfold float_agrees_at in Hat.
  destruct (train_test_split_float (Z.of_nat N)) as [t|e];
    [|discriminate Hat; lia].
  destruct (train_val_split_float (Z.of_nat N)) as [v|e];
    [|discriminate Hat; lia].
  assert (Hb : ((t =? Z.of_nat N * 8 / 10) && (v =? Z.of_nat N * 8 / 10 * 9 / 10))%Z
               = true) by (apply Hat; lia).
  apply andb_true_iff in Hb as [Ht Hv].
  apply Z.eqb_eq in Ht, Hv. subst t v.
  unfold train_val_split, train_test_split.
  rewrite !Nat2Z.inj_div, !Nat2Z.inj_mul, !Nat2Z.inj_div, !Nat2Z.inj_mul.
  split; reflexivity.
Qed.

(** Seven subjects give fourteen records; the script puts nine of them in the
    training slice, while [floor(0.8 * 0.9 * 14)] is ten. *)
Lemma split_boundary_is_not_product_floor :
  let data := load_dataset repo_dir seven_subjects in
  length data = 14 /\
  length (data_train (split_dataset data)) = 9 /\
  train_val_split_float 14 = Ok 9%Z /\
  spec_train_val_split (length data) = 10 /\
  data_train (split_dataset data)
    <> slice_to (spec_train_val_split (length data)) data.
Proof.
  vm_compute. repeat split; try reflexivity. discriminate.
Qed.

(** Fourteen records are at least ten; the training slice holds nine of
    them, more than one record below 0.72 * 14 = 10.08 and neither the floor
    nor the ceiling of it. *)
Lemma train_size_not_within_one_record :
  let data := load_dataset repo_dir seven_subjects in
  let n_train := length (data_train (split_dataset data)) in
  10 <= length data /\
  n_train = 9 /\
  100 * (n_train + 1) < 72 * length data /\
  n_train <> spec_train_val_split (length data) /\
  n_train <> S (spec_train_val_split (length data)).
Proof.
  intros data n_train.
  assert (Hd : length data = 14) by (vm_compute; reflexivity).
  assert (Ht : n_train = 9) by (vm_compute; reflexivity).
  assert (Hs : spec_train_val_split 14 = 10) by (vm_compute; reflexivity).
  rewrite Hd, Ht, Hs. lia.
Qed.

(** [split_dataset_partition] at the fourteen records of seven subjects. *)
Lemma split_dataset_partition_witness :
  let data := load_dataset repo_dir seven_subjects in
  let sp := split_dataset data in
  10 <= length data /\
  data_train sp ++ data_val sp ++ data_test sp = data /\
  length (data_train sp) = 9 /\ length (data_val sp) = 2 /\
  length (data_test sp) = 3.
Proof.
  assert (H10 : 10 <= length (load_dataset repo_dir seven_subjects))
    by (vm_compute; lia).
  pose proof (split_dataset_partition _ H10) as (Happ & _).
  split; [exact H10|].
  split; [exact Happ|].
  vm_compute. auto.
Defined.

(** ** The transform pipelines *)

Section PipelineFacts.

Context {F : Framework}.

Lemma compose_cons (t : transform) (ts : list transform) (r : rng) (x : sample) :
  compose (t :: ts) r x
  = compose ts (apply_step (x, r) t).2 (apply_step (x, r) t).1.
Proof. unfold compose; simpl. destruct (apply_step (x, r) t); reflexivity. Qed.

(** A pipeline without randomizable steps is a function of the sample: it
    leaves the random state alone and its output does not depend on it. *)
Lemma compose_fixed (ts : list transform) :
  forallb (λ t, negb (randomizable t)) ts = true ->
  forall (r : rng) (x : sample),
    compose ts r x = (foldl (λ y t, apply_transform t y) x ts, r).
Proof.
  induction ts as [|t ts IH]; intros Hfix r x.
  - reflexivity.
  - simpl in Hfix. apply andb_true_iff in Hfix as [Ht Hts].
    rewrite compose_cons. unfold apply_step.
    apply negb_true_iff in Ht. rewrite Ht. simpl.
    apply IH. exact Hts.
Qed.

(** C5: no step of the validation pipeline is randomizable, so what it
    returns for a record is the same whatever the random state, two runs on
    the same record give the same sample, and the run draws nothing. *)
Theorem val_pipeline_deterministic (record : sample_record) (r1 r2 : rng) :
  forallb (λ t, negb (randomizable t)) val_transforms = true /\
  (getitem val_transforms r1 record).1 = (getitem val_transforms r2 record).1 /\
  (getitem val_transforms r1 record).2 = r1 /\
  (getitem val_transforms r1 record).1
  = foldl (λ y t, apply_transform t y) (of_record record) val_transforms.
Proof.
  assert (Hfix : forallb (λ t, negb (randomizable t)) val_transforms = true)
    by reflexivity.
  unfold getitem.
  rewrite !(compose_fixed val_transforms Hfix).
  auto.
Qed.

(** What a randomizable step does to a sample: it draws a number of its own
    and goes through its gate, which is open when its [prob] exceeds it. *)
Lemma apply_step_gated (t : transform) (prob : Q) (r : rng) (x : sample) :
  prob_of t = Some prob ->
  apply_step (x, r) t = apply_gated t (Qgtb prob (gate_draw t r)) r x.
Proof.
  intros Hp. unfold apply_step, randomizable, apply_random.
  rewrite Hp. reflexivity.
Qed.

(** C8 (as amended): the training pipeline runs load, channel-first, add
    channel, resize to 80x120x160 (trilinear), intensity rescale, random
    intensity scale, random zoom, random Gaussian noise, random flip,
    conversion to tensors, random affine, in this order, a sample going
    through the steps one after the other; and each of the five random
    steps is gated by a probability of its own: for every sample it draws a
    number of its own from the random state it is called with, and its gate
    is open exactly when that number is below its probability (0.4, 0.8,
    0.9, 0.3 and 0.9), whatever the gates of the other steps. *)
Theorem train_pipeline_order (r : rng) (x : sample) :
  kind_of <$> train_transforms
  = [ LoadVolumes; ChannelFirst; InsertChannel; ResizeFixed3D; IntensityRescale;
      RandomIntensityScale; RandomZoom; RandomNoise; RandomFlip;
      ConvertToTensor; RandomAffine ] /\
  train_transforms !! 3
  = Some (Resized ["img"; "seg"] [80; 120; 160]%Z "trilinear" true) /\
  compose train_transforms r x =
    (let scale := RandScaleIntensityd ["img"] (4 # 10) (2 # 10) in
     let zoom := RandZoomd ["img"; "seg"] (8 # 10) (8 # 10) (12 # 10) in
     let noise := RandGaussianNoised ["img"] (9 # 10) in
     let flip := RandFlipd ["img"; "seg"] (3 # 10) [0; 1; 2]%Z in
     let affine :=
       RandAffined ["img"; "seg"] (9 # 10) [15 # 1; 25 # 1; 35 # 1]
         (3 # 10) (15 # 100) in
     let x5 := foldl (λ y t, apply_transform t y) x (take 5 train_transforms) in
     let '(x6, r6) := apply_gated scale (Qgtb (4 # 10) (gate_draw scale r)) r x5 in
     let '(x7, r7) := apply_gated zoom (Qgtb (8 # 10) (gate_draw zoom r6)) r6 x6 in
     let '(x8, r8) := apply_gated noise (Qgtb (9 # 10) (gate_draw noise r7)) r7 x7 in
     let '(x9, r9) := apply_gated flip (Qgtb (3 # 10) (gate_draw flip r8)) r8 x8 in
     let x10 := apply_transform (ToTensord ["img"; "seg"]) x9 in
     apply_gated affine (Qgtb (9 # 10) (gate_draw affine r9)) r9 x10) /\
  (forall u prob : Q, Qgtb prob u = true <-> (u < prob)%Q).
Proof.
  split; [reflexivity|]. split; [reflexivity|]. split.
  - unfold train_transforms. cbv zeta.
    do 5 (rewrite compose_cons; cbn [apply_step randomizable prob_of fst snd]).
    rewrite compose_cons, (apply_step_gated _ (4 # 10)) by reflexivity.
    destruct (apply_gated (RandScaleIntensityd _ _ _) _ _ _) as [x6 r6].
    cbn [fst snd].
    rewrite compose_cons, (apply_step_gated _ (8 # 10)) by reflexivity.
    destruct (apply_gated (RandZoomd _ _ _ _) _ _ _) as [x7 r7].
    cbn [fst snd].
    rewrite compose_cons, (apply_step_gated _ (9 # 10)) by reflexivity.
    destruct (apply_gated (RandGaussianNoised _ _) _ _ _) as [x8 r8].
    cbn [fst snd].
    rewrite compose_cons, (apply_step_gated _ (3 # 10)) by reflexivity.
    destruct (apply_gated (RandFlipd _ _ _) _ _ _) as [x9 r9].
    cbn [fst snd].
    rewrite compose_cons; cbn [apply_step randomizable prob_of fst snd].
    rewrite compose_cons, (apply_step_gated _ (9 # 10)) by reflexivity.
    destruct (apply_gated (RandAffined _ _ _ _ _) _ _ _) as [x11 r11].
    reflexivity.
  - intros u prob. unfold Qgtb. rewrite negb_true_iff.
    split.
    + intros Hle. apply Qnot_le_lt. intros Hab.
      apply Qle_bool_iff in Hab. congruence.
    + intros Hlt. destruct (Qle_bool prob u) eqn:Hle; [|reflexivity].
      apply Qle_bool_iff in Hle. exfalso. exact (Qlt_not_le _ _ Hlt Hle).
Qed.

End PipelineFacts.

(** The order the specification gives is not the order of the list: the
    random zoom (position 6) comes before the random noise (position 7), and
    the conversion to tensors stands between the flip and the affine step;
    the two orders differ even with that conversion left out. *)
Lemma train_pipeline_order_differs :
  kind_of <$> train_transforms <> spec_train_order /\
  filter (λ k, k <> ConvertToTensor) (kind_of <$> train_transforms)
    <> spec_train_order /\
  kind_of <$> train_transforms !! 6 = Some RandomZoom /\
  spec_train_order !! 6 = Some RandomNoise /\
  kind_of <$> train_transforms !! 7 = Some RandomNoise /\
  spec_train_order !! 7 = Some RandomZoom.
Proof.
  repeat split; try reflexivity; vm_compute; discriminate.
Qed.

(** ** The epoch loop *)

Section LoopFacts.

Context {F : Framework}.
Implicit Types (s : train_state) (tr va : list sample_record).

Lemma batches_nil {A} (b : nat) (l : list A) :
  batches b l = [] <-> l = [].
Proof.
  unfold batches. destruct l as [|x l]; simpl; split; congruence.
Qed.

Lemma batches_fuel_one {A} (l : list A) :
  forall fuel, length l <= fuel -> batches_fuel fuel 1 l = (λ x, [x]) <$> l.
Proof.
  induction l as [|x l IH]; intros fuel Hfuel.
  - destruct fuel; reflexivity.
  - destruct fuel as [|fuel]; simpl in *; [lia|].
    rewrite take_0, drop_0. f_equal. apply IH. lia.
Qed.

Lemma batches_one {A} (l : list A) : batches 1 l = (λ x, [x]) <$> l.
Proof. apply batches_fuel_one. reflexivity. Qed.

Lemma same_bookkeeping_refl s : same_bookkeeping s s.
Proof. repeat split. Qed.

Lemma val_log_app_train s (evs : list event) :
  omap val_entry evs = [] ->
  omap val_entry (writer s ++ evs) = omap val_entry (writer s).
Proof. intros H. rewrite omap_app, H, app_nil_r. reflexivity. Qed.

Lemma train_loop_spec epoch epoch_len (bs : list (list sample_record)) :
  forall s epoch_loss step s1 epoch_loss1 step1,
    foldl (train_iteration epoch epoch_len) (s, epoch_loss, step) bs
    = (s1, epoch_loss1, step1) ->
    step1 = step + length bs /\ same_bookkeeping s s1.
Proof.
  induction bs as [|b bs IH]; intros s epoch_loss step s1 epoch_loss1 step1 Hfold.
  - simpl in Hfold. inversion Hfold; subst. split; [simpl; lia|apply same_bookkeeping_refl].
  - simpl in Hfold.
    destruct (load_batch train_transforms (rstate s) b) as [batch_data r] eqn:Hload.
    destruct (train_batch (model s) batch_data) as [m loss] eqn:Hstep.
    apply IH in Hfold as [Hstep1 Hsame].
    split; [simpl; lia|].
    destruct Hsame as (H1 & H2 & H3 & H4 & H5).
    repeat split; try assumption.
    rewrite H5. unfold val_log; simpl.
    apply val_log_app_train. reflexivity.
Qed.


Lemma py_div_Ok (x : Q) (n : nat) (q : Q) :
  py_div x n = Ok q <-> 0 < n /\ q = (x / inject_Z (Z.of_nat n))%Q.
Proof.
  destruct n as [|n]; simpl; split.
  - discriminate.
  - intros [H _]; lia.
  - intros H; inversion H; split; [lia|reflexivity].
  - intros [_ ->]; reflexivity.
Qed.

Lemma py_div_zero (x : Q) : py_div x 0 = Raise ZeroDivisionError.
Proof. reflexivity. Qed.

Lemma shuffle_nil (r : rng) : (shuffle r []).1 = [].
Proof. apply Permutation_nil_r. apply shuffle_perm. Qed.

Lemma shuffle_not_nil (r : rng) tr : tr <> [] -> (shuffle r tr).1 <> [].
Proof.
  intros Hne Hnil. apply Hne.
  pose proof (shuffle_perm r tr) as Hp. rewrite Hnil in Hp.
  apply Permutation_nil_l in Hp. symmetry. exact Hp.
Qed.

Lemma train_loader_Ok tr : tr <> [] -> train_loader tr = Ok tr.
Proof. destruct tr; [contradiction|reflexivity]. Qed.

(** There is no loader of an empty training split to iterate. *)
Lemma train_phase_empty epoch s :
  train_phase [] epoch s = Raise ValueError.
Proof. reflexivity. Qed.

Lemma train_phase_Ok tr epoch s :
  tr <> [] ->
  exists s1, train_phase tr epoch s = Ok s1 /\ same_bookkeeping s s1.
Proof.
  intros Hne. unfold train_phase.
  rewrite (train_loader_Ok tr Hne). cbn [mbind result_bind].
  pose proof (shuffle_not_nil (base_seed (rstate s)) tr Hne) as Hord.
  destruct (shuffle (base_seed (rstate s)) tr) as [order r]; simpl in Hord.
  match goal with
  | |- context [foldl ?f ?a ?bs] => destruct (foldl f a bs) as [[s1 epoch_loss] step] eqn:Hfold
  end.
  apply train_loop_spec in Hfold as [Hstep Hsame].
  assert (Hlen : 0 < length (batches train_batch_size order)).
  { destruct (batches train_batch_size order) eqn:Hb; [|simpl; lia].
    apply batches_nil in Hb. contradiction. }
  destruct step as [|step]; [simpl in Hstep; lia|].
  simpl. eexists. split; [reflexivity|].
  destruct Hsame as (H1 & H2 & H3 & H4 & H5).
  repeat split; simpl; assumption.
Qed.

Lemma train_phase_inv tr epoch s s1 :
  train_phase tr epoch s = Ok s1 -> tr <> [] /\ same_bookkeeping s s1.
Proof.
  intros Hrun.
  destruct tr as [|x tr].
  - rewrite train_phase_empty in Hrun. discriminate.
  - split; [discriminate|].
    destruct (train_phase_Ok (x :: tr) epoch s) as (s1' & Hrun' & Hsame);
      [discriminate|].
    rewrite Hrun in Hrun'. inversion Hrun'; subst. exact Hsame.
Qed.

(** *** One validation pass *)

Lemma Qgtb_true (a b : Q) : Qgtb a b = true <-> (b < a)%Q.
Proof.
  unfold Qgtb. rewrite negb_true_iff.
  split.
  - intros Hle. apply Qnot_le_lt. intros Hab.
    apply Qle_bool_iff in Hab. congruence.
  - intros Hlt. destruct (Qle_bool a b) eqn:Hle; [|reflexivity].
    apply Qle_bool_iff in Hle. exfalso. exact (Qlt_not_le _ _ Hlt Hle).
Qed.

Lemma Qgtb_false (a b : Q) : Qgtb a b = false <-> (a <= b)%Q.
Proof.
  unfold Qgtb. rewrite negb_false_iff. apply Qle_bool_iff.
Qed.

Lemma validation_phase_empty epoch s :
  validation_phase [] epoch s = Raise ZeroDivisionError.
Proof. reflexivity. Qed.

Lemma validation_phase_inv va epoch s s' :
  validation_phase va epoch s = Ok s' ->
  exists r metric_sum metric_count metric,
    val_loop (model s) (batches val_batch_size va) (rstate s) 0%Q 0
    = Ok (r, metric_sum, metric_count) /\
    0 < metric_count /\
    metric = (metric_sum / inject_Z (Z.of_nat metric_count))%Q /\
    s' = record_metric epoch metric r s.
Proof.
  unfold validation_phase. intros Hrun.
  apply bind_Ok in Hrun as ([[r metric_sum] metric_count] & Hloop & Hrun).
  apply bind_Ok in Hrun as (metric & Hdiv & Hrun).
  apply py_div_Ok in Hdiv as [Hpos Hmetric].
  inversion Hrun; subst s'.
  exists r, metric_sum, metric_count, metric. auto.
Qed.

Lemma val_batches_Ok (m : params) (bs : list (list sample_record)) :
  dice_ok ->
  forall (r : rng) (metric_sum : Q) (metric_count : nat),
    (0 <= metric_sum)%Q ->
    exists r' metric_sum',
      val_batches m bs r metric_sum metric_count
      = Ok (r', metric_sum', metric_count + length bs) /\
      (0 <= metric_sum')%Q.
Proof.
  intros Hdice.
  induction bs as [|b bs IH]; intros r metric_sum metric_count Hsum.
  - exists r, metric_sum. simpl. rewrite Nat.add_0_r. auto.
  - simpl.
    destruct (load_batch val_transforms r b) as [val_data r1].
    destruct (Hdice m val_data) as (v & Hv & Hge). rewrite Hv. simpl.
    destruct (IH r1 (metric_sum + v * inject_Z (Z.of_nat 1))%Q (metric_count + 1))
      as (r' & metric_sum' & Hloop & Hge').
    { rewrite <- (Qplus_0_r 0).
      apply Qplus_le_compat; [exact Hsum|].
      apply Qmult_le_0_compat; [exact Hge|].
      unfold Qle; simpl; lia. }
    exists r', metric_sum'. rewrite Hloop.
    split; [|exact Hge'].
    do 2 f_equal. lia.
Qed.

Lemma val_loop_Ok (m : params) (bs : list (list sample_record)) :
  dice_ok ->
  forall (r : rng) (metric_sum : Q) (metric_count : nat),
    (0 <= metric_sum)%Q ->
    exists r' metric_sum',
      val_loop m bs r metric_sum metric_count
      = Ok (r', metric_sum', metric_count + length bs) /\
      (0 <= metric_sum')%Q.
Proof.
  intros Hdice r metric_sum metric_count Hsum.
  apply (val_batches_Ok m bs Hdice (base_seed r) metric_sum metric_count Hsum).
Qed.

Lemma validation_phase_Ok va epoch s :
  dice_ok -> va <> [] ->
  exists r metric,
    validation_phase va epoch s = Ok (record_metric epoch metric r s) /\
    (0 <= metric)%Q.
Proof.
  intros Hdice Hne. unfold validation_phase.
  destruct (val_loop_Ok (model s) (batches val_batch_size va) Hdice
              (rstate s) 0%Q 0 (Qle_refl 0))
    as (r & metric_sum & Hloop & Hge).
  rewrite Hloop. simpl.
  assert (Hlen : 0 < length (batches val_batch_size va)).
  { destruct (batches val_batch_size va) eqn:Hb; [|simpl; lia].
    apply batches_nil in Hb. contradiction. }
  destruct (length (batches val_batch_size va)) as [|n]; [lia|]. simpl.
  eexists r, _. split; [reflexivity|].
  apply Qle_shift_div_l.
  - unfold Qlt; simpl. lia.
  - rewrite Qmult_0_l. exact Hge.
Qed.

(** *** What a validation pass records *)

Lemma val_log_record_metric epoch metric r s :
  val_log (record_metric epoch metric r s) = val_log s ++ [(epoch + 1, metric)].
Proof. unfold val_log; simpl. rewrite omap_app. reflexivity. Qed.

Lemma best_metric_record_metric epoch metric r s :
  (best_metric s <= best_metric (record_metric epoch metric r s))%Q.
Proof.
  simpl. destruct (Qgtb metric (best_metric s)) eqn:Hgt.
  - apply Qgtb_true in Hgt. apply Qlt_le_weak. exact Hgt.
  - apply Qle_refl.
Qed.

(** *** One epoch and several *)

Lemma validation_epochs_S count epoch :
  validation_epochs (S count) epoch
  = (if validates epoch then [epoch + 1] else [])
    ++ validation_epochs count (S epoch).
Proof.
  unfold validation_epochs; simpl seq. rewrite filter_cons.
  destruct (validates epoch) eqn:Hv.
  - rewrite decide_True by reflexivity. reflexivity.
  - rewrite decide_False by discriminate. reflexivity.
Qed.

Lemma validates_iff epoch : validates epoch = true <-> (epoch + 1) mod 2 = 0.
Proof. unfold validates, val_interval. apply Nat.eqb_eq. Qed.

Lemma elem_of_validation_epochs count epoch k :
  k ∈ validation_epochs count epoch
  <-> exists e, k = e + 1 /\ epoch <= e < epoch + count /\ (e + 1) mod 2 = 0.
Proof.
  unfold validation_epochs. rewrite list_elem_of_fmap.
  split.
  - intros (e & -> & He). apply list_elem_of_filter in He as [Hv He].
    apply elem_of_seq in He. apply validates_iff in Hv. eauto.
  - intros (e & -> & He & Hv). exists e. split; [reflexivity|].
    apply list_elem_of_filter. split; [apply validates_iff; exact Hv|].
    apply elem_of_seq. exact He.
Qed.

Lemma length_validation_epochs count :
  forall epoch,
    length (validation_epochs count epoch) = (count + epoch mod 2) / 2.
Proof.
  induction count as [|count IH]; intros epoch.
  - replace (validation_epochs 0 epoch) with (@nil nat) by reflexivity.
    cbn [length]. rewrite Nat.add_0_l.
    symmetry. apply Nat.div_small. apply Nat.mod_upper_bound. lia.
  - rewrite validation_epochs_S, length_app, IH.
    pose proof (validates_iff epoch) as Hv.
    pose proof (Nat.div_mod_eq epoch 2).
    pose proof (Nat.mod_upper_bound epoch 2 ltac:(discriminate)).
    pose proof (Nat.div_mod_eq (S epoch) 2).
    pose proof (Nat.mod_upper_bound (S epoch) 2 ltac:(discriminate)).
    pose proof (Nat.div_mod_eq (count + S epoch mod 2) 2).
    pose proof (Nat.mod_upper_bound (count + S epoch mod 2) 2 ltac:(discriminate)).
    pose proof (Nat.div_mod_eq (S count + epoch mod 2) 2).
    pose proof (Nat.mod_upper_bound (S count + epoch mod 2) 2 ltac:(discriminate)).
    replace (epoch + 1) with (S epoch) in Hv by lia.
    destruct (validates epoch); cbn [length].
    + assert (S epoch mod 2 = 0) as Hpar by (apply Hv; reflexivity). lia.
    + assert (S epoch mod 2 <> 0) as Hpar
        by (intros Heq; apply Hv in Heq; discriminate).
      lia.
Qed.

Lemma run_epoch_inv tr va epoch s s' :
  run_epoch tr va epoch s = Ok s' ->
  exists s1, train_phase tr epoch s = Ok s1 /\
    if validates epoch then validation_phase va epoch s1 = Ok s' else s' = s1.
Proof.
  unfold run_epoch. intros Hrun.
  apply bind_Ok in Hrun as (s1 & Htrain & Hrun).
  exists s1. split; [exact Htrain|].
  destruct (validates epoch); [exact Hrun|]. inversion Hrun; reflexivity.
Qed.

Lemma run_epochs_S tr va count epoch s :
  run_epochs tr va (S count) epoch s
  = run_epoch tr va epoch s ≫= run_epochs tr va count (S epoch).
Proof. reflexivity. Qed.

Lemma run_epochs_app tr va (a b : nat) :
  forall epoch s,
    run_epochs tr va (a + b) epoch s
    = run_epochs tr va a epoch s ≫= run_epochs tr va b (epoch + a).
Proof.
  induction a as [|a IH]; intros epoch s.
  - simpl. rewrite Nat.add_0_r. reflexivity.
  - simpl. destruct (run_epoch tr va epoch s) as [s1|e]; simpl; [|reflexivity].
    rewrite IH. replace (S epoch + a) with (epoch + S a) by lia. reflexivity.
Qed.

(** The log of a run: one [val_mean_dice] entry per validating epoch, in
    order, and [metric_values] grows by the same metrics. *)
Lemma run_epoch_log tr va epoch s s' :
  run_epoch tr va epoch s = Ok s' ->
  exists new : list Q,
    length new = (if validates epoch then 1 else 0) /\
    val_log s' = val_log s ++ ((λ m, (epoch + 1, m)) <$> new) /\
    metric_values s' = metric_values s ++ new.
Proof.
  intros Hrun. apply run_epoch_inv in Hrun as (s1 & Htrain & Hval).
  apply train_phase_inv in Htrain as [_ (_ & _ & Hmv & _ & Hlog)].
  destruct (validates epoch).
  - apply validation_phase_inv in Hval as (r & msum & mcount & metric & _ & _ & _ & ->).
    exists [metric]. rewrite val_log_record_metric, Hlog. simpl. rewrite Hmv. auto.
  - subst s'. exists []. simpl. rewrite !app_nil_r. auto.
Qed.

Lemma snd_pair_fmap (e : nat) (l : list Q) : ((λ m, (e, m)) <$> l).*2 = l.
Proof.
  induction l as [|m l IH]; [reflexivity|].
  rewrite !fmap_cons, IH. reflexivity.
Qed.

Lemma run_epochs_log tr va count :
  forall epoch s s',
    run_epochs tr va count epoch s = Ok s' ->
    (val_log s').*1 = (val_log s).*1 ++ validation_epochs count epoch /\
    (metric_values s = (val_log s).*2 -> metric_values s' = (val_log s').*2).
Proof.
  induction count as [|count IH]; intros epoch s s' Hrun.
  - simpl in Hrun. inversion Hrun; subst. unfold validation_epochs; simpl.
    rewrite app_nil_r. auto.
  - rewrite run_epochs_S in Hrun.
    apply bind_Ok in Hrun as (s1 & Hepoch & Hrest).
    apply run_epoch_log in Hepoch as (new & Hlen & Hlog & Hmv).
    apply IH in Hrest as [Hlog' Hmv'].
    rewrite validation_epochs_S.
    split.
    + rewrite Hlog', Hlog, fmap_app, <- app_assoc. do 2 f_equal.
      destruct (validates epoch); destruct new as [|m [|m' new]];
        simpl in Hlen; try discriminate; reflexivity.
    + intros Hinit. apply Hmv'. rewrite Hmv, Hlog, Hinit, fmap_app.
      f_equal. symmetry. apply snd_pair_fmap.
Qed.

Lemma run_epochs_Ok tr va count :
  dice_ok -> tr <> [] -> va <> [] ->
  forall epoch s, exists s', run_epochs tr va count epoch s = Ok s'.
Proof.
  intros Hdice Htr Hva.
  induction count as [|count IH]; intros epoch s.
  - exists s. reflexivity.
  - rewrite run_epochs_S. unfold run_epoch.
    destruct (train_phase_Ok tr epoch s Htr) as (s1 & -> & _). simpl.
    destruct (validates epoch).
    + destruct (validation_phase_Ok va epoch s1 Hdice Hva) as (r & metric & -> & _).
      simpl. apply IH.
    + simpl. apply IH.
Qed.

(** *** The best metric so far *)

Lemma log_inv_initial (r : rng) : log_inv (initial_state r).
Proof. left. repeat split. Qed.

Lemma log_inv_same s s1 : same_bookkeeping s s1 -> log_inv s -> log_inv s1.
Proof.
  intros (Hb & He & _ & _ & Hl) Hinv. unfold log_inv.
  rewrite Hb, He, Hl. exact Hinv.
Qed.

Lemma log_inv_record_metric epoch metric r s :
  (0 <= metric)%Q -> log_inv s ->
  best_of_log (val_log (record_metric epoch metric r s))
    (best_metric (record_metric epoch metric r s))
    (best_metric_epoch (record_metric epoch metric r s)).
Proof.
  intros Hge Hinv. rewrite val_log_record_metric. simpl.
  destruct Hinv as [(Hnil & Hbest & Hep) | (l1 & e & l2 & Hlog & Hep & Hl1 & Hl2)].
  - assert (Hgt : Qgtb metric (best_metric s) = true).
    { apply Qgtb_true. rewrite Hbest.
      apply Qlt_le_trans with (y := 0%Q); [reflexivity|exact Hge]. }
    rewrite Hgt, Hnil.
    exists [], (epoch + 1), []. simpl.
    repeat split; intros e' m Hin; apply elem_of_nil in Hin; contradiction.
  - destruct (Qgtb metric (best_metric s)) eqn:Hgt.
    + apply Qgtb_true in Hgt.
      exists (val_log s), (epoch + 1), [].
      repeat split.
      * intros e' m Hin. rewrite Hlog in Hin.
        apply elem_of_app in Hin as [Hin|Hin].
        -- apply Qlt_trans with (y := best_metric s); [eapply Hl1; exact Hin|exact Hgt].
        -- apply elem_of_cons in Hin as [Heq|Hin].
           ++ inversion Heq; subst. exact Hgt.
           ++ apply Qle_lt_trans with (y := best_metric s); [eapply Hl2; exact Hin|exact Hgt].
      * intros e' m Hin. apply elem_of_nil in Hin. contradiction.
    + apply Qgtb_false in Hgt.
      exists l1, e, (l2 ++ [(epoch + 1, metric)]).
      repeat split.
      * rewrite Hlog, <- app_assoc. reflexivity.
      * exact Hep.
      * exact Hl1.
      * intros e' m Hin. apply elem_of_app in Hin as [Hin|Hin].
        -- eapply Hl2; exact Hin.
        -- apply list_elem_of_singleton in Hin. inversion Hin; subst. exact Hgt.
Qed.

Lemma validation_phase_nonneg va epoch s s' :
  dice_ok -> validation_phase va epoch s = Ok s' ->
  exists r metric, s' = record_metric epoch metric r s /\ (0 <= metric)%Q.
Proof.
  intros Hdice Hrun.
  destruct va as [|x va].
  - rewrite validation_phase_empty in Hrun. discriminate.
  - destruct (validation_phase_Ok (x :: va) epoch s Hdice) as (r & metric & Hrun' & Hge);
      [discriminate|].
    rewrite Hrun in Hrun'. inversion Hrun'. eauto.
Qed.

Lemma run_epoch_log_inv tr va epoch s s' :
  dice_ok -> run_epoch tr va epoch s = Ok s' -> log_inv s -> log_inv s'.
Proof.
  intros Hdice Hrun Hinv.
  apply run_epoch_inv in Hrun as (s1 & Htrain & Hval).
  apply train_phase_inv in Htrain as [_ Hsame].
  apply (log_inv_same _ _ Hsame) in Hinv.
  destruct (validates epoch).
  - apply validation_phase_nonneg in Hval as (r & metric & -> & Hge); [|exact Hdice].
    right. apply log_inv_record_metric; assumption.
  - subst s'. exact Hinv.
Qed.

Lemma run_epochs_log_inv tr va count :
  dice_ok ->
  forall epoch s s',
    run_epochs tr va count epoch s = Ok s' -> log_inv s -> log_inv s'.
Proof.
  intros Hdice.
  induction count as [|count IH]; intros epoch s s' Hrun Hinv.
  - inversion Hrun; subst. exact Hinv.
  - rewrite run_epochs_S in Hrun.
    apply bind_Ok in Hrun as (s1 & Hepoch & Hrest).
    eapply IH; [exact Hrest|].
    eapply run_epoch_log_inv; eassumption.
Qed.

Lemma run_epoch_best_mono tr va epoch s s' :
  run_epoch tr va epoch s = Ok s' -> (best_metric s <= best_metric s')%Q.
Proof.
  intros Hrun.
  apply run_epoch_inv in Hrun as (s1 & Htrain & Hval).
  apply train_phase_inv in Htrain as [_ (Hb & _)].
  rewrite <- Hb.
  destruct (validates epoch).
  - apply validation_phase_inv in Hval as (r & ? & ? & metric & _ & _ & _ & ->).
    apply best_metric_record_metric.
  - subst s'. apply Qle_refl.
Qed.

Lemma run_epochs_best_mono tr va count :
  forall epoch s s',
    run_epochs tr va count epoch s = Ok s' -> (best_metric s <= best_metric s')%Q.
Proof.
  induction count as [|count IH]; intros epoch s s' Hrun.
  - inversion Hrun; subst. apply Qle_refl.
  - rewrite run_epochs_S in Hrun.
    apply bind_Ok in Hrun as (s1 & Hepoch & Hrest).
    apply Qle_trans with (y := best_metric s1).
    + eapply run_epoch_best_mono; exact Hepoch.
    + eapply IH; exact Hrest.
Qed.

Lemma elem_of_val_log s (k : nat) (m : Q) :
  (k, m) ∈ val_log s <-> add_scalar "val_mean_dice" m k ∈ writer s.
Proof.
  unfold val_log. rewrite list_elem_of_omap. split.
  - intros (ev & Hin & Hev).
    destruct ev as [tag v step|tag step]; simpl in Hev; [|discriminate].
    destruct (bool_decide (tag = "val_mean_dice")) eqn:Htag; [|discriminate].
    apply bool_decide_eq_true in Htag. inversion Hev; subst. exact Hin.
  - intros Hin. eexists. split; [exact Hin|]. reflexivity.
Qed.

(** C4 (as amended): an empty split meets no guard, but no loop runs over
    its zero batches either: when one of the three slices is empty the index
    holds at most two records and the training slice is empty, so
    [first(check_loader)] is [None] and line 123 ends the run with a
    [TypeError], before the loaders of the loop are built and before any
    epoch and any validation pass. *)
Theorem empty_split_ends_at_check_loader (epochs : nat)
    (data : list sample_record) :
  let sp := split_dataset data in
  data_train sp = [] \/ data_val sp = [] \/ data_test sp = [] ->
  length data <= 2 /\
  data_train sp = [] /\
  batches train_batch_size (data_train sp) = [] /\
  check_first (data_train sp) initial_rng = Raise TypeError /\
  train_on epochs data = Raise TypeError.
Proof.
  intros sp Hempty.
  assert (Hlen : length data <= 2).
  { destruct Hempty as [Htr|[Hva|Hte]].
    - apply data_train_nil_iff. exact Htr.
    - apply data_val_nil_iff in Hva. lia.
    - apply (f_equal length) in Hte. subst sp.
      rewrite length_data_test in Hte. simpl in Hte.
      pose proof (train_test_split_floor (length data)). lia. }
  assert (Htr : data_train sp = []) by (apply data_train_nil_iff; exact Hlen).
  split; [exact Hlen|]. split; [exact Htr|].
  unfold train_on. fold sp. rewrite Htr.
  split; [reflexivity|]. split; reflexivity.
Qed.

(** C6: with non-empty training and validation splits a run of [n] epochs
    completes, and epoch number [e] (from 0) of it has validated exactly
    when [(e + 1) mod 2 = 0]: the log holds one mean-metric entry per such
    epoch, at step [e + 1], in order, and [metric_values] holds the same
    metrics; so there are [n / 2] validation passes and entries (one after
    two epochs). *)
Theorem validation_every_second_epoch tr va (r : rng) (n : nat) :
  dice_ok -> tr <> [] -> va <> [] ->
  exists s,
    run_epochs tr va n 0 (initial_state r) = Ok s /\
    (val_log s).*1 = validation_epochs n 0 /\
    (forall e, (exists m, add_scalar "val_mean_dice" m (e + 1) ∈ writer s)
               <-> e < n /\ (e + 1) mod val_interval = 0) /\
    metric_values s = (val_log s).*2 /\
    length (val_log s) = n / 2 /\
    length (metric_values s) = n / 2.
Proof.
  intros Hdice Htr Hva.
  destruct (run_epochs_Ok tr va n Hdice Htr Hva 0 (initial_state r)) as [s Hrun].
  exists s. split; [exact Hrun|].
  apply run_epochs_log in Hrun as [Hlog Hmv].
  simpl in Hlog.
  assert (Hlen : length (val_log s) = n / 2).
  { rewrite <- (length_fmap fst), Hlog, length_validation_epochs.
    rewrite Nat.Div0.mod_0_l, Nat.add_0_r. reflexivity. }
  split; [exact Hlog|].
  split.
  { intros e. split.
    - intros [m Hin]. apply elem_of_val_log in Hin.
      assert (Hk : e + 1 ∈ (val_log s).*1).
      { apply list_elem_of_fmap. exists (e + 1, m). auto. }
      rewrite Hlog in Hk. apply elem_of_validation_epochs in Hk as (e' & He & Hr & Hv).
      assert (e' = e) by lia. subst e'. split; [lia|exact Hv].
    - intros [He Hv].
      assert (Hk : e + 1 ∈ (val_log s).*1).
      { rewrite Hlog. apply elem_of_validation_epochs. exists e.
        split; [reflexivity|]. split; [lia|exact Hv]. }
      apply list_elem_of_fmap in Hk as ([k m] & Hk & Hin). simpl in Hk. subst k.
      exists m. apply elem_of_val_log. exact Hin. }
  split; [apply Hmv; reflexivity|].
  split; [exact Hlen|].
  rewrite (Hmv eq_refl), length_fmap. exact Hlen.
Qed.

(** C7: a validation pass that has computed its mean metric (the count is
    positive) completes; when the metric strictly exceeds the best so far,
    the current parameters are saved and best metric and best epoch become
    this metric and this epoch (counted from 1); otherwise nothing is saved
    and both stay as they were. *)
Theorem checkpoint_iff_improvement va epoch s r metric_sum metric_count :
  val_loop (model s) (batches val_batch_size va) (rstate s) 0%Q 0
  = Ok (r, metric_sum, metric_count) ->
  0 < metric_count ->
  let metric := (metric_sum / inject_Z (Z.of_nat metric_count))%Q in
  exists s',
    validation_phase va epoch s = Ok s' /\
    metric_values s' = metric_values s ++ [metric] /\
    model s' = model s /\
    ((best_metric s < metric)%Q ->
       checkpoint s' = checkpoint s ++ [model s] /\
       best_metric s' = metric /\
       best_metric_epoch s' = Z.of_nat (epoch + 1)) /\
    (~ (best_metric s < metric)%Q ->
       checkpoint s' = checkpoint s /\
       best_metric s' = best_metric s /\
       best_metric_epoch s' = best_metric_epoch s).
Proof.
  intros Hloop Hpos metric.
  exists (record_metric epoch metric r s).
  split.
  { unfold validation_phase. rewrite Hloop. simpl.
    destruct metric_count as [|k]; [lia|]. reflexivity. }
  split; [reflexivity|]. split; [reflexivity|].
  split.
  - intros Hlt. apply Qgtb_true in Hlt. simpl. rewrite Hlt. auto.
  - intros Hnlt. simpl.
    destruct (Qgtb metric (best_metric s)) eqn:Hgt; [|auto].
    apply Qgtb_true in Hgt. contradiction.
Qed.

(** C9: with non-empty training and validation splits, the first epoch ends
    without a validation entry and without a checkpoint, and the second
    epoch runs the first validation pass, whose mean Dice is at least 0 and
    so exceeds the initial best of -1: the parameters are saved, and the
    best metric and best epoch are that mean and 2. *)
Theorem first_validation_saves_checkpoint tr va (r : rng) :
  dice_ok -> tr <> [] -> va <> [] ->
  exists s1 s2 m,
    run_epochs tr va 1 0 (initial_state r) = Ok s1 /\
    val_log s1 = [] /\ checkpoint s1 = [] /\
    run_epochs tr va 2 0 (initial_state r) = Ok s2 /\
    val_log s2 = [(2, m)] /\
    (0 <= m)%Q /\ (best_metric s1 < m)%Q /\
    checkpoint s2 = [model s2] /\
    best_metric s2 = m /\
    best_metric_epoch s2 = 2%Z.
Proof.
  intros Hdice Htr Hva.
  destruct (train_phase_Ok tr 0 (initial_state r) Htr) as (s1 & Ht1 & Hs1).
  destruct (train_phase_Ok tr 1 s1 Htr) as (s1' & Ht2 & Hs2).
  destruct (validation_phase_Ok va 1 s1' Hdice Hva) as (r' & m & Hv & Hge).
  destruct Hs1 as (Hb1 & He1 & Hm1 & Hc1 & Hl1).
  destruct Hs2 as (Hb2 & He2 & Hm2 & Hc2 & Hl2).
  assert (Hbest : best_metric s1' = (-1)%Q) by (rewrite Hb2, Hb1; reflexivity).
  assert (Hlt : (best_metric s1' < m)%Q).
  { rewrite Hbest. apply Qlt_le_trans with (y := 0%Q); [reflexivity|exact Hge]. }
  exists s1, (record_metric 1 m r' s1'), m.
  split.
  { simpl. unfold run_epoch. rewrite Ht1. reflexivity. }
  split; [rewrite Hl1; reflexivity|].
  split; [rewrite Hc1; reflexivity|].
  split.
  { simpl. unfold run_epoch. rewrite Ht1. simpl. rewrite Ht2. simpl.
    rewrite Hv. reflexivity. }
  split; [rewrite val_log_record_metric, Hl2, Hl1; reflexivity|].
  split; [exact Hge|].
  split; [rewrite <- Hb2; exact Hlt|].
  apply Qgtb_true in Hlt. simpl. rewrite Hlt, Hc2, Hc1. auto.
Qed.

(** C10: once a validation pass has completed, the best metric is one of the
    mean metrics computed so far and none of them exceeds it, every pass
    before the best epoch stayed strictly below it (the best epoch is the
    earliest pass that reached the maximum), and the best metric of an
    earlier point of the run is never larger. *)
Theorem best_metric_is_running_maximum tr va (r : rng) (n : nat) s :
  dice_ok ->
  run_epochs tr va n 0 (initial_state r) = Ok s ->
  val_log s <> [] ->
  metric_values s = (val_log s).*2 /\
  best_metric s ∈ metric_values s /\
  (forall m, m ∈ metric_values s -> (m <= best_metric s)%Q) /\
  best_of_log (val_log s) (best_metric s) (best_metric_epoch s) /\
  (forall k s_k, k <= n ->
     run_epochs tr va k 0 (initial_state r) = Ok s_k ->
     (best_metric s_k <= best_metric s)%Q).
Proof.
  intros Hdice Hrun Hne.
  pose proof (run_epochs_log_inv tr va n Hdice 0 _ _ Hrun (log_inv_initial r)) as Hinv.
  destruct (run_epochs_log tr va n 0 _ _ Hrun) as [_ Hmv].
  specialize (Hmv eq_refl).
  destruct Hinv as [(Hnil & _)|Hbest]; [contradiction|].
  split; [exact Hmv|].
  destruct Hbest as (l1 & e & l2 & Hlog & Hep & Hl1 & Hl2).
  split.
  { rewrite Hmv, Hlog. apply list_elem_of_fmap. exists (e, best_metric s).
    split; [reflexivity|]. apply elem_of_app. right. apply elem_of_cons. left. reflexivity. }
  split.
  { intros m Hin. rewrite Hmv, Hlog in Hin.
    apply list_elem_of_fmap in Hin as ([e' m'] & -> & Hin). simpl.
    apply elem_of_app in Hin as [Hin|Hin].
    - apply Qlt_le_weak. eapply Hl1; exact Hin.
    - apply elem_of_cons in Hin as [Heq|Hin].
      + inversion Heq; subst. apply Qle_refl.
      + eapply Hl2; exact Hin. }
  split; [exists l1, e, l2; auto|].
  intros k s_k Hk Hrun_k.
  replace n with (k + (n - k)) in Hrun by lia.
  rewrite run_epochs_app, Hrun_k in Hrun. simpl in Hrun.
  eapply run_epochs_best_mono; exact Hrun.
Qed.

End LoopFacts.

(** ** The loop on concrete inputs *)

Lemma toy_dice_ok : dice_ok (F:=toy_framework).
Proof.
  intros p xs. eexists. split; [reflexivity|].
  unfold Qle; simpl. lia.
Qed.

Lemma three_subject_train_nonempty : three_subject_train <> [].
Proof. vm_compute. discriminate. Qed.

Lemma three_subject_val_nonempty : three_subject_val <> [].
Proof. vm_compute. discriminate. Qed.

(** With one subject (two records) the training slice is empty while the
    validation slice is not, with no subject all slices are empty: either
    way the program does not complete, it ends with a [TypeError]. *)
Lemma empty_split_run_does_not_complete :
  data_train (split_dataset (load_dataset repo_dir ["g001"%string])) = [] /\
  data_val (split_dataset (load_dataset repo_dir ["g001"%string])) <> [] /\
  main (F:=toy_framework) repo_dir ["g001"%string] = Raise TypeError /\
  data_val (split_dataset (load_dataset repo_dir [])) = [] /\
  main (F:=toy_framework) repo_dir [] = Raise TypeError.
Proof.
  split; [reflexivity|]. split; [vm_compute; discriminate|].
  split; [reflexivity|]. split; reflexivity.
Qed.

(** [empty_split_ends_at_check_loader] on the two records of one subject. *)
Lemma empty_split_ends_at_check_loader_witness :
  data_train (split_dataset (load_dataset repo_dir ["g001"%string])) = [] /\
  main (F:=toy_framework) repo_dir ["g001"%string] = Raise TypeError.
Proof.
  pose proof (empty_split_ends_at_check_loader (F:=toy_framework) n_epochs
                (load_dataset repo_dir ["g001"%string])
                (or_introl eq_refl)) as (_ & Htr & _ & _ & Hrun).
  split; [exact Htr|exact Hrun].
Defined.

(** [validation_every_second_epoch] on three subjects, two epochs. *)
Lemma validation_every_second_epoch_witness :
  exists s,
    run_epochs (F:=toy_framework) three_subject_train three_subject_val 2 0
      toy_state = Ok s /\
    length (val_log s) = 1 /\ length (metric_values s) = 1.
Proof.
  destruct (validation_every_second_epoch (F:=toy_framework)
              three_subject_train three_subject_val 0 2 toy_dice_ok
              three_subject_train_nonempty three_subject_val_nonempty)
    as (s & Hrun & _ & _ & _ & Hlog & Hmv).
  exists s. split; [exact Hrun|]. split; [exact Hlog|exact Hmv].
Defined.

(** [checkpoint_iff_improvement] on the first validation pass of the toy
    run. *)
Lemma checkpoint_iff_improvement_witness :
  exists s',
    validation_phase (F:=toy_framework) three_subject_val 1 toy_state = Ok s' /\
    checkpoint s' = [0] /\ best_metric_epoch s' = 2%Z.
Proof.
  destruct (checkpoint_iff_improvement (F:=toy_framework) three_subject_val 1
              toy_state 1 (0 # 4)%Q 1 ltac:(vm_compute; reflexivity) (le_n 1))
    as (s' & Hrun & _ & _ & Himp & _).
  exists s'. split; [exact Hrun|].
  destruct Himp as (Hc & _ & He); [reflexivity|].
  split; [exact Hc|exact He].
Defined.

(** [first_validation_saves_checkpoint] on three subjects. *)
Lemma first_validation_saves_checkpoint_witness :
  exists s2,
    run_epochs (F:=toy_framework) three_subject_train three_subject_val 2 0
      toy_state = Ok s2 /\
    checkpoint s2 = [model s2] /\ best_metric_epoch s2 = 2%Z.
Proof.
  destruct (first_validation_saves_checkpoint (F:=toy_framework)
              three_subject_train three_subject_val 0 toy_dice_ok
              three_subject_train_nonempty three_subject_val_nonempty)
    as (s1 & s2 & m & _ & _ & _ & Hrun & _ & _ & _ & Hc & _ & He).
  exists s2. split; [exact Hrun|]. split; [exact Hc|exact He].
Defined.

(** [best_metric_is_running_maximum] after eight epochs of the toy run: the
    means are 2/4, 1/4, 0/4 and 2/4, and the best stays the one of epoch 2. *)
Lemma best_metric_is_running_maximum_witness :
  exists s,
    run_epochs (F:=toy_framework) three_subject_train three_subject_val 8 0
      toy_state = Ok s /\
    val_log s = [(2, (2 # 4)%Q); (4, (1 # 4)%Q); (6, (0 # 4)%Q); (8, (2 # 4)%Q)] /\
    best_metric_epoch s = 2%Z /\
    best_metric s ∈ metric_values s /\
    (forall m, m ∈ metric_values s -> (m <= best_metric s)%Q).
Proof.
  eexists. split; [vm_compute; reflexivity|].
  split; [reflexivity|]. split; [reflexivity|].
  refine (let H := best_metric_is_running_maximum (F:=toy_framework)
                     three_subject_train three_subject_val 0 8 _ toy_dice_ok
                     ltac:(vm_compute; reflexivity) ltac:(discriminate) in _).
  destruct H as (_ & Hin & Hmax & _).
  split; [exact Hin|exact Hmax].
Defined.

(** * Further properties of the script *)

(** ** The index and its slices *)

Section IndexerMore.

Local Open Scope string_scope.
Implicit Types (a b s needle hay name : string).

Lemma sorted_perm_eq (l k : list string) : l ≡ₚ k -> sorted l = sorted k.
Proof.
  intros Hp. apply sorted_unique; [apply sorted_Sorted|].
  rewrite sorted_Permutation. symmetry. exact Hp.
Qed.

(** X1: the index does not depend on the order in which the file system
    lists the data folder. *)
Theorem load_dataset_listing_order dpath (entries entries' : list string) :
  entries ≡ₚ entries' ->
  load_dataset dpath entries = load_dataset dpath entries'.
Proof.
  intros Hp. rewrite !load_dataset_filter.
  rewrite (sorted_perm_eq (filter (λ name, startswith "g" name = true) entries)
             (filter (λ name, startswith "g" name = true) entries')).
  - reflexivity.
  - apply filter_Permutation. exact Hp.
Qed.

(** *** The index as a list of pairs *)

Lemma bind_pairs_lookup {A B} (f : A -> list B) (l : list A) :
  (forall x, length (f x) = 2) ->
  forall k j, j < 2 -> (l ≫= f) !! (2 * k + j) = l !! k ≫= (λ x, f x !! j).
Proof.
  intros Hf. induction l as [|x l IH]; intros k j Hj.
  - reflexivity.
  - rewrite bind_cons.
    pose proof (Hf x) as Hx.
    destruct k as [|k].
    + rewrite lookup_app_l by lia. reflexivity.
    + rewrite lookup_app_r by lia.
      replace (2 * S k + j - length (f x)) with (2 * k + j) by lia.
      rewrite IH by exact Hj. reflexivity.
Qed.

Lemma bind_pairs_length {A B} (f : A -> list B) (l : list A) :
  (forall x, length (f x) = 2) -> length (l ≫= f) = 2 * length l.
Proof.
  intros Hf. induction l as [|x l IH]; [reflexivity|].
  rewrite bind_cons, length_app, IH, Hf. simpl. lia.
Qed.

Lemma load_dataset_bases dpath entries :
  exists bases : list string,
    load_dataset dpath entries = bases ≫= records_of /\
    length (load_dataset dpath entries) = 2 * length bases.
Proof.
  exists ((λ name, img_path_dir dpath ++ "/" ++ name)
            <$> filter (λ name, is_bad (img_path_dir dpath ++ "/" ++ name) = false)
                  (sorted (filter (λ name, startswith "g" name = true) entries))).
  rewrite load_dataset_filter, list_fmap_bind.
  split; [reflexivity|].
  rewrite length_fmap. apply (bind_pairs_length (records_of ∘ _)). reflexivity.
Qed.

(** X2: when the training boundary is odd, the two records of one subject
    are separated: its left record is the last training record and its
    right record is the first validation record. *)
Theorem split_separates_subject dpath entries (k : nat) :
  let data := load_dataset dpath entries in
  train_val_split (length data) = 2 * k + 1 ->
  exists subject_base,
    last (data_train (split_dataset data))
    = Some {| img := path_join subject_base ["volCentered_L.nii.gz"];
              seg := path_join subject_base ["seg_L.nii.gz"] |} /\
    head (data_val (split_dataset data))
    = Some {| img := path_join subject_base ["volCentered_R.nii.gz"];
              seg := path_join subject_base ["seg_R.nii.gz"] |}.
Proof.
  intros data Hodd.
  destruct (load_dataset_bases dpath entries) as (bases & Hdata & Hlen).
  fold data in Hdata, Hlen.
  pose proof (train_test_split_floor (length data)) as Ht.
  pose proof (train_val_split_floor (length data)) as Hv.
  assert (Hk : k < length bases) by lia.
  destruct (lookup_lt_is_Some_2 bases k Hk) as [subject_base Hbase].
  exists subject_base. split.
  - rewrite last_lookup, length_data_train, Hodd.
    replace (Init.Nat.pred (2 * k + 1)) with (2 * k + 0) by lia.
    rewrite lookup_data_train, decide_True by lia.
    rewrite Hdata, (bind_pairs_lookup records_of) by (reflexivity || lia).
    rewrite Hbase. reflexivity.
  - rewrite head_lookup, lookup_data_val, decide_True by lia.
    rewrite Hodd, Nat.add_0_r.
    rewrite Hdata, (bind_pairs_lookup records_of) by (reflexivity || lia).
    rewrite Hbase. reflexivity.
Qed.

(** *** Distinct records *)

Lemma string_length_app a b :
  String.length (a ++ b) = String.length a + String.length b.
Proof.
  induction a as [|c a IH]; [reflexivity|].
  change (String c a ++ b) with (String c (a ++ b)). simpl. rewrite IH. reflexivity.
Qed.

Lemma string_app_inj_length a b s t :
  String.length s = String.length t -> a ++ s = b ++ t -> a = b /\ s = t.
Proof.
  intros Hlen. revert b. induction a as [|c a IH]; intros [|c' b] Heq.
  - auto.
  - exfalso. apply (f_equal String.length) in Heq.
    change (String c' b ++ t) with (String c' (b ++ t)) in Heq.
    simpl in Heq. rewrite !string_length_app in Heq. simpl in Heq. lia.
  - exfalso. apply (f_equal String.length) in Heq.
    change (String c a ++ s) with (String c (a ++ s)) in Heq.
    simpl in Heq. rewrite !string_length_app in Heq. simpl in Heq. lia.
  - change (String c a ++ s) with (String c (a ++ s)) in Heq.
    change (String c' b ++ t) with (String c' (b ++ t)) in Heq.
    inversion Heq; subst. destruct (IH b) as [-> ->]; auto.
Qed.

Lemma no_sep_endswith name : contains "/" name = false -> endswith_sep name = false.
Proof.
  induction name as [|c name IH]; [reflexivity|].
  rewrite contains_cons. intros Hc. apply orb_false_iff in Hc as [Hp Hc].
  destruct name as [|c' name].
  - simpl. apply bool_decide_eq_false. intros ->.
    simpl in Hp. discriminate.
  - exact (IH Hc).
Qed.

(** A file of a subject folder is joined to it by one separator. *)
Lemma path_join_file dpath name file :
  startswith "g" name = true -> contains "/" name = false ->
  startswith "/" file = false ->
  path_join (img_path_dir dpath ++ "/" ++ name) [file]
  = (img_path_dir dpath ++ "/" ++ name) ++ "/" ++ file.
Proof.
  intros Hg Hsep Hfile. unfold path_join; simpl. unfold path_join2.
  rewrite Hfile.
  destruct name as [|c name]; [discriminate|].
  rewrite <- string_app_assoc, endswith_sep_app, (no_sep_endswith _ Hsep).
  rewrite bool_decide_eq_false_2; [reflexivity|].
  destruct (img_path_dir dpath); discriminate.
Qed.

Lemma records_of_subject dpath name :
  startswith "g" name = true -> contains "/" name = false ->
  let base := img_path_dir dpath ++ "/" ++ name in
  records_of base
  = [ {| img := base ++ "/volCentered_L.nii.gz"; seg := base ++ "/seg_L.nii.gz" |};
      {| img := base ++ "/volCentered_R.nii.gz"; seg := base ++ "/seg_R.nii.gz" |} ].
Proof.
  intros Hg Hsep base. unfold records_of.
  rewrite !(path_join_file dpath name) by (assumption || reflexivity).
  reflexivity.
Qed.

(** X3: when the data folder lists no name twice and no name contains a
    separator, the records of the index are pairwise distinct. *)
Theorem load_dataset_NoDup dpath (entries : list string) :
  NoDup entries ->
  Forall (λ name, contains "/" name = false) entries ->
  NoDup (load_dataset dpath entries).
Proof.
  intros Hnd Hsep. rewrite load_dataset_filter.
  set (kept := filter _ (sorted _)).
  assert (Hkept : forall name, name ∈ kept ->
            startswith "g" name = true /\ contains "/" name = false).
  { intros name Hin. unfold kept in Hin.
    apply list_elem_of_filter in Hin as [_ Hin].
    rewrite sorted_Permutation in Hin.
    apply list_elem_of_filter in Hin as [Hg Hin].
    split; [exact Hg|].
    rewrite Forall_forall in Hsep. apply Hsep. exact Hin. }
  apply NoDup_bind.
  - intros n1 n2 y H1 H2 Hy1 Hy2.
    destruct (Hkept n1 H1) as [Hg1 Hs1]. destruct (Hkept n2 H2) as [Hg2 Hs2].
    rewrite (records_of_subject dpath n1 Hg1 Hs1) in Hy1.
    rewrite (records_of_subject dpath n2 Hg2 Hs2) in Hy2.
    assert (Hbase : img_path_dir dpath ++ "/" ++ n1 = img_path_dir dpath ++ "/" ++ n2).
    { apply elem_of_cons in Hy1 as [->|Hy1];
        [|apply list_elem_of_singleton in Hy1 as ->];
        (apply elem_of_cons in Hy2 as [Hy2|Hy2];
           [|apply list_elem_of_singleton in Hy2]);
        apply (f_equal img) in Hy2; simpl in Hy2;
        apply string_app_inj_length in Hy2 as [Hb Hsuf];
        try reflexivity; try discriminate Hsuf; exact Hb. }
    apply String.app_inj in Hbase. apply (String.app_inj "/") in Hbase. exact Hbase.
  - intros name Hin. destruct (Hkept name Hin) as [Hg Hs].
    rewrite (records_of_subject dpath name Hg Hs).
    apply NoDup_cons. split; [|apply NoDup_singleton].
    intros Hin'. apply list_elem_of_singleton in Hin'.
    apply (f_equal img) in Hin'. simpl in Hin'.
    apply string_app_inj_length in Hin' as [_ Hsuf]; [discriminate|reflexivity].
  - unfold kept. apply NoDup_filter.
    rewrite sorted_Permutation. apply NoDup_filter. exact Hnd.
Qed.

End IndexerMore.

(** ** The logs of a run *)

Section LoopMore.

Context {F : Framework}.
Implicit Types (s : train_state) (tr va : list sample_record).

Lemma length_batches_fuel {A} (fuel : nat) :
  forall l : list A, length l <= fuel ->
    length (batches_fuel fuel train_batch_size l) = (length l + 3) / 4.
Proof.
  induction fuel as [|fuel IH]; intros l Hfuel.
  - destruct l; [reflexivity|simpl in Hfuel; lia].
  - destruct l as [|x l]; [reflexivity|].
    cbn [length] in Hfuel.
    cbn [batches_fuel length].
    rewrite IH by (rewrite length_drop; cbn [length]; unfold train_batch_size; lia).
    rewrite length_drop. cbn [length].
    unfold train_batch_size.
    pose proof (Nat.div_mod_eq (S (length l) - 4 + 3) 4).
    pose proof (Nat.mod_upper_bound (S (length l) - 4 + 3) 4 ltac:(discriminate)).
    pose proof (Nat.div_mod_eq (S (length l) + 3) 4).
    pose proof (Nat.mod_upper_bound (S (length l) + 3) 4 ltac:(discriminate)).
    lia.
Qed.

Lemma length_batches {A} (l : list A) :
  length (batches train_batch_size l) = (length l + 3) / 4.
Proof. apply length_batches_fuel. reflexivity. Qed.

Lemma train_loop_log epoch epoch_len (bs : list (list sample_record)) :
  forall s epoch_loss step s1 epoch_loss1 step1,
    foldl (train_iteration epoch epoch_len) (s, epoch_loss, step) bs
    = (s1, epoch_loss1, step1) ->
    exists losses : list Q,
      length losses = length bs /\
      train_log s1
      = train_log s
        ++ imap (λ i loss, (epoch_len * epoch + (step + S i), loss)) losses /\
      epoch_loss1 = foldl Qplus epoch_loss losses /\
      epoch_loss_values s1 = epoch_loss_values s.
Proof.
  induction bs as [|b bs IH]; intros s epoch_loss step s1 epoch_loss1 step1 Hfold.
  - simpl in Hfold. inversion Hfold; subst. exists []. simpl.
    rewrite app_nil_r. auto.
  - simpl in Hfold.
    destruct (load_batch train_transforms (rstate s) b) as [batch_data r] eqn:Hload.
    destruct (train_batch (model s) batch_data) as [m loss] eqn:Hstep.
    apply IH in Hfold as (losses & Hlen & Hlog & Hsum & Hvals).
    exists (loss :: losses).
    split; [simpl; lia|].
    split; [|split; [exact Hsum|exact Hvals]].
    rewrite Hlog. unfold train_log at 1; simpl writer.
    rewrite omap_app. simpl omap. rewrite <- app_assoc.
    f_equal. simpl. f_equal.
    + do 2 f_equal. lia.
    + apply imap_ext. intros i x _. simpl. do 2 f_equal. lia.
Qed.

Lemma train_phase_log tr epoch s s1 :
  train_phase tr epoch s = Ok s1 ->
  exists losses : list Q,
    length losses = (length tr + 3) / 4 /\
    train_log s1
    = train_log s
      ++ imap (λ i loss, (length tr / train_batch_size * epoch + S i, loss)) losses /\
    epoch_loss_values s1
    = epoch_loss_values s
      ++ [(foldl Qplus 0 losses / inject_Z (Z.of_nat (length losses)))%Q].
Proof.
  intros Hrun.
  pose proof (train_phase_inv _ _ _ _ Hrun) as [Hne _].
  unfold train_phase in Hrun.
  rewrite (train_loader_Ok tr Hne) in Hrun. cbn [mbind result_bind] in Hrun.
  pose proof (shuffle_perm (base_seed (rstate s)) tr) as Hperm.
  destruct (shuffle (base_seed (rstate s)) tr) as [order r]; simpl in Hperm.
  match type of Hrun with
  | context [foldl ?f ?a ?bs] =>
      destruct (foldl f a bs) as [[s' epoch_loss] step] eqn:Hfold
  end.
  pose proof (train_loop_spec _ _ _ _ _ _ _ _ _ Hfold) as [Hstep _].
  apply train_loop_log in Hfold as (losses & Hlen & Hlog & Hsum & Hvals).
  apply bind_Ok in Hrun as (mean & Hdiv & Hrun).
  apply py_div_Ok in Hdiv as [Hpos Hmean].
  inversion Hrun; subst s1; clear Hrun. simpl in *.
  rewrite length_batches, (Permutation_length Hperm) in Hlen.
  exists losses. split; [exact Hlen|].
  split; [exact Hlog|].
  rewrite Hvals, Hmean, Hsum, Hstep, length_batches, (Permutation_length Hperm), Hlen.
  reflexivity.
Qed.

Lemma train_log_record_metric epoch metric r s :
  train_log (record_metric epoch metric r s) = train_log s.
Proof.
  unfold train_log; simpl. rewrite omap_app. simpl. apply app_nil_r.
Qed.

Lemma imap_steps (a : nat) (losses : list Q) :
  (imap (λ i loss, (a + S i, loss)) losses).*1
  = (λ i, a + i) <$> seq 1 (length losses).
Proof.
  rewrite fmap_imap.
  rewrite <- (imap_seq losses (λ i, a + i) 1).
  apply imap_ext. intros i x _. reflexivity.
Qed.

Lemma run_epoch_train_log tr va epoch s s' :
  run_epoch tr va epoch s = Ok s' ->
  (train_log s').*1 = (train_log s).*1 ++ epoch_steps (length tr) epoch /\
  length (epoch_loss_values s') = length (epoch_loss_values s) + 1.
Proof.
  intros Hrun. apply run_epoch_inv in Hrun as (s1 & Htrain & Hval).
  apply train_phase_log in Htrain as (losses & Hlen & Hlog & Hvals).
  assert (Hs1 : (train_log s1).*1
                = (train_log s).*1 ++ epoch_steps (length tr) epoch).
  { rewrite Hlog, fmap_app, imap_steps, Hlen. reflexivity. }
  assert (Hl1 : length (epoch_loss_values s1) = length (epoch_loss_values s) + 1).
  { rewrite Hvals, length_app. reflexivity. }
  destruct (validates epoch).
  - apply validation_phase_inv in Hval as (r & ? & ? & metric & _ & _ & _ & ->).
    rewrite train_log_record_metric. auto.
  - subst s'. auto.
Qed.

Lemma run_epochs_train_log tr va count :
  forall epoch s s',
    run_epochs tr va count epoch s = Ok s' ->
    (train_log s').*1
    = (train_log s).*1 ++ (seq epoch count ≫= epoch_steps (length tr)) /\
    length (epoch_loss_values s') = length (epoch_loss_values s) + count.
Proof.
  induction count as [|count IH]; intros epoch s s' Hrun.
  - inversion Hrun; subst. simpl. rewrite app_nil_r. auto.
  - rewrite run_epochs_S in Hrun.
    apply bind_Ok in Hrun as (s1 & Hepoch & Hrest).
    apply run_epoch_train_log in Hepoch as [Hlog1 Hlen1].
    apply IH in Hrest as [Hlog Hlen].
    split; [|lia].
    rewrite Hlog, Hlog1. cbn [seq]. rewrite bind_cons, app_assoc. reflexivity.
Qed.

Lemma epoch_steps_aligned (len epoch : nat) :
  len mod 4 = 0 ->
  epoch_steps len epoch = seq (len / 4 * epoch + 1) (len / 4).
Proof.
  intros Hmod. unfold epoch_steps, train_batch_size.
  assert ((len + 3) / 4 = len / 4) as ->.
  { pose proof (Nat.div_mod_eq len 4).
    pose proof (Nat.div_mod_eq (len + 3) 4).
    pose proof (Nat.mod_upper_bound (len + 3) 4 ltac:(discriminate)).
    lia. }
  apply (fmap_add_seq (len / 4 * epoch) 1).
Qed.

Lemma bind_epoch_steps_aligned (len count : nat) :
  len mod 4 = 0 ->
  forall epoch,
    seq epoch count ≫= epoch_steps len
    = seq (len / 4 * epoch + 1) (count * (len / 4)).
Proof.
  intros Hmod. induction count as [|count IH]; intros epoch.
  - reflexivity.
  - cbn [seq]. rewrite bind_cons, (epoch_steps_aligned len epoch Hmod), IH.
    replace (S count * (len / 4)) with (len / 4 + count * (len / 4)) by lia.
    rewrite seq_app. do 2 f_equal. lia.
Qed.

(** X10: a training pass over a non-empty split completes, logs one
    [train_loss] scalar per batch (the batches number the record count
    divided by four, rounded up) at the global steps
    [epoch_len * epoch + 1, + 2, ...] with [epoch_len] the count divided by
    four rounded down, appends the mean of the logged losses to the loss
    history, and leaves best metric, best epoch, metric history, checkpoint
    and validation log alone. *)
Theorem train_phase_logs_every_batch tr epoch s :
  tr <> [] ->
  exists s1 (losses : list Q),
    train_phase tr epoch s = Ok s1 /\
    length losses = (length tr + 3) / 4 /\
    train_log s1
    = train_log s
      ++ imap (λ i loss, (length tr / train_batch_size * epoch + S i, loss)) losses /\
    epoch_loss_values s1
    = epoch_loss_values s
      ++ [(foldl Qplus 0 losses / inject_Z (Z.of_nat (length losses)))%Q] /\
    same_bookkeeping s s1.
Proof.
  intros Htr.
  destruct (train_phase_Ok tr epoch s Htr) as (s1 & Hrun & Hsame).
  destruct (train_phase_log tr epoch s s1 Hrun) as (losses & Hlen & Hlog & Hvals).
  exists s1, losses. auto.
Qed.

(** X11: when the number of training records is a multiple of four, the
    [train_loss] scalars of a run are logged at the consecutive global steps
    1, 2, 3, ..., and the loss history holds one mean per epoch. *)
Theorem train_steps_consecutive tr va (r : rng) (n : nat) s :
  length tr mod 4 = 0 ->
  run_epochs tr va n 0 (initial_state r) = Ok s ->
  (train_log s).*1 = seq 1 (n * (length tr / 4)) /\
  length (epoch_loss_values s) = n.
Proof.
  intros Hmod Hrun.
  apply run_epochs_train_log in Hrun as [Hlog Hlen].
  split; [|exact Hlen].
  rewrite Hlog, (bind_epoch_steps_aligned _ _ Hmod). simpl.
  rewrite Nat.mul_0_r. reflexivity.
Qed.

(** X12: when the number of training records is not a multiple of four, the
    global steps repeat: the last batch of the first epoch and the first
    batch of the second epoch are both logged at step [epoch_len + 1]. *)
Theorem train_steps_collide tr va (r : rng) (n : nat) s :
  length tr mod 4 <> 0 ->
  2 <= n ->
  run_epochs tr va n 0 (initial_state r) = Ok s ->
  let epoch_len := length tr / 4 in
  (train_log s).*1 !! epoch_len = Some (epoch_len + 1) /\
  (train_log s).*1 !! (epoch_len + 1) = Some (epoch_len + 1).
Proof.
  intros Hmod Hn Hrun epoch_len.
  apply run_epochs_train_log in Hrun as [Hlog _].
  destruct n as [|[|n]]; [lia|lia|].
  cbn [seq] in Hlog. rewrite !bind_cons in Hlog.
  change ((train_log (initial_state r)).*1) with (@nil nat) in Hlog.
  rewrite app_nil_l in Hlog. rewrite Hlog.
  assert (Hnb : (length tr + 3) / 4 = epoch_len + 1).
  { unfold epoch_len.
    pose proof (Nat.div_mod_eq (length tr) 4).
    pose proof (Nat.mod_upper_bound (length tr) 4 ltac:(discriminate)).
    pose proof (Nat.div_mod_eq (length tr + 3) 4).
    pose proof (Nat.mod_upper_bound (length tr + 3) 4 ltac:(discriminate)).
    lia. }
  assert (Hlen : forall e, length (epoch_steps (length tr) e) = epoch_len + 1).
  { intros e. unfold epoch_steps, train_batch_size.
    rewrite length_fmap, length_seq. exact Hnb. }
  split.
  - rewrite lookup_app_l by (rewrite Hlen; lia).
    unfold epoch_steps, train_batch_size. rewrite Hnb, list_lookup_fmap.
    rewrite lookup_seq_lt by lia. cbn [fmap option_fmap option_map]. f_equal. lia.
  - rewrite lookup_app_r by (rewrite Hlen; lia).
    rewrite Hlen, Nat.sub_diag.
    rewrite lookup_app_l by (rewrite Hlen; lia).
    unfold epoch_steps, train_batch_size. rewrite Hnb, list_lookup_fmap.
    rewrite lookup_seq_lt by lia. cbn [fmap option_fmap option_map]. f_equal. lia.
Qed.

End LoopMore.

(** ** Checkpoint, validation and the program *)

Section LoopMore2.

Context {F : Framework}.
Implicit Types (s : train_state) (tr va : list sample_record).

Lemma run_epochs_snoc tr va (n : nat) epoch s :
  run_epochs tr va (S n) epoch s
  = run_epochs tr va n epoch s ≫= run_epoch tr va (epoch + n).
Proof.
  replace (S n) with (n + 1) by lia. rewrite run_epochs_app.
  destruct (run_epochs tr va n epoch s) as [s1|e]; [|reflexivity].
  simpl. destruct (run_epoch tr va (epoch + n) s1); reflexivity.
Qed.

(** X13: at any point of a run, either nothing was saved and the best epoch
    is still -1, or the best epoch is an even epoch [e] of the run, the
    checkpoint file holds the parameters the model had at the end of epoch
    [e], and the best metric is the one recorded then. *)
Theorem checkpoint_holds_best_epoch_model tr va (r : rng) (n : nat) :
  forall s,
    run_epochs tr va n 0 (initial_state r) = Ok s ->
    (best_metric_epoch s = (-1)%Z /\ checkpoint s = []) \/
    (exists (e : nat) (s_e : train_state),
       1 <= e <= n /\ e mod 2 = 0 /\
       best_metric_epoch s = Z.of_nat e /\
       run_epochs tr va e 0 (initial_state r) = Ok s_e /\
       last (checkpoint s) = Some (model s_e) /\
       best_metric s = best_metric s_e).
Proof.
  induction n as [|n IH]; intros s' Hrun.
  - inversion Hrun; subst. left. split; reflexivity.
  - pose proof Hrun as Hfull.
    rewrite run_epochs_snoc in Hrun.
    apply bind_Ok in Hrun as (s & Hn & Hepoch).
    specialize (IH s Hn). simpl in Hepoch.
    apply run_epoch_inv in Hepoch as (s1 & Htrain & Hval).
    apply train_phase_inv in Htrain as [_ (Hb & He & _ & Hc & _)].
    assert (Hkeep : best_metric_epoch s1 = best_metric_epoch s ->
                    checkpoint s1 = checkpoint s ->
                    best_metric s1 = best_metric s ->
                    forall s2, best_metric_epoch s2 = best_metric_epoch s1 ->
                      checkpoint s2 = checkpoint s1 ->
                      best_metric s2 = best_metric s1 ->
            (best_metric_epoch s2 = (-1)%Z /\ checkpoint s2 = []) \/
            (exists (e : nat) (s_e : train_state),
               1 <= e <= S n /\ e mod 2 = 0 /\
               best_metric_epoch s2 = Z.of_nat e /\
               run_epochs tr va e 0 (initial_state r) = Ok s_e /\
               last (checkpoint s2) = Some (model s_e) /\
               best_metric s2 = best_metric s_e)).
    { intros E1 C1 B1 s2 E2 C2 B2.
      rewrite E2, C2, B2, E1, C1, B1.
      destruct IH as [IH|(e & s_e & Hle & Hev & IH)]; [left; exact IH|].
      right. exists e, s_e. split; [lia|]. split; [exact Hev|exact IH]. }
    destruct (validates n) eqn:Hvn.
    + apply validation_phase_inv in Hval as (r' & ? & ? & metric & _ & _ & _ & ->).
      destruct (Qgtb metric (best_metric s1)) eqn:Hgt.
      * right. exists (S n), (record_metric n metric r' s1).
        split; [lia|].
        split; [apply validates_iff in Hvn; replace (S n) with (n + 1) by lia; exact Hvn|].
        simpl. rewrite Hgt.
        split; [f_equal; lia|].
        split; [exact Hfull|].
        split; [apply last_snoc|reflexivity].
      * apply (Hkeep He Hc Hb); simpl; rewrite Hgt; reflexivity.
    + subst s'. apply (Hkeep He Hc Hb); reflexivity.
Qed.

(** *** The range of the mean *)

Lemma inject_Z_S (n : nat) :
  (inject_Z (Z.of_nat (n + 1)) == inject_Z (Z.of_nat n) + 1)%Q.
Proof. rewrite Nat2Z.inj_add, inject_Z_plus. reflexivity. Qed.

Lemma val_batches_unit (m : params) (bs : list (list sample_record)) :
  dice_unit ->
  forall (r : rng) (metric_sum : Q) (metric_count : nat),
    (0 <= metric_sum)%Q ->
    (metric_sum <= inject_Z (Z.of_nat metric_count))%Q ->
    exists r' metric_sum',
      val_batches m bs r metric_sum metric_count
      = Ok (r', metric_sum', metric_count + length bs) /\
      (0 <= metric_sum')%Q /\
      (metric_sum' <= inject_Z (Z.of_nat (metric_count + length bs)))%Q.
Proof.
  intros Hdice.
  induction bs as [|b bs IH]; intros r metric_sum metric_count Hlo Hhi.
  - exists r, metric_sum. simpl. rewrite Nat.add_0_r. auto.
  - simpl.
    destruct (load_batch val_transforms r b) as [val_data r1].
    destruct (Hdice m val_data) as (v & Hv & Hge & Hle). rewrite Hv. simpl.
    destruct (IH r1 (metric_sum + v * inject_Z (Z.of_nat 1))%Q (metric_count + 1))
      as (r' & metric_sum' & Hloop & Hlo' & Hhi').
    { rewrite <- (Qplus_0_r 0).
      apply Qplus_le_compat; [exact Hlo|].
      apply Qmult_le_0_compat; [exact Hge|]. unfold Qle; simpl; lia. }
    { rewrite inject_Z_S. apply Qplus_le_compat; [exact Hhi|].
      change (inject_Z (Z.of_nat 1)) with 1%Q. rewrite Qmult_1_r. exact Hle. }
    exists r', metric_sum'. rewrite Hloop.
    replace (metric_count + 1 + length bs) with (metric_count + S (length bs))
      in * by lia.
    auto.
Qed.

Lemma validation_phase_unit va epoch s s' :
  dice_unit -> validation_phase va epoch s = Ok s' ->
  exists r metric,
    s' = record_metric epoch metric r s /\ (0 <= metric)%Q /\ (metric <= 1)%Q.
Proof.
  intros Hdice Hrun.
  apply validation_phase_inv in Hrun as (r & a & c & metric & Hloop & Hpos & Hmetric & ->).
  destruct (val_batches_unit (model s) (batches val_batch_size va) Hdice
              (base_seed (rstate s)) 0%Q 0 (Qle_refl 0) (Qle_refl 0))
    as (r' & a' & Hloop' & Hlo & Hhi).
  unfold val_loop in Hloop. rewrite Hloop in Hloop'. inversion Hloop'; subst r' a' c. clear Hloop'.
  exists r, metric. split; [reflexivity|].
  assert (Hc : (0 < inject_Z (Z.of_nat (0 + length (batches val_batch_size va))))%Q).
  { unfold Qlt; simpl. lia. }
  subst metric. split.
  - apply Qle_shift_div_l; [exact Hc|]. rewrite Qmult_0_l. exact Hlo.
  - apply Qle_shift_div_r; [exact Hc|]. rewrite Qmult_1_l. exact Hhi.
Qed.

(** X15: when every Dice value lies in [0, 1], every mean metric a run
    records lies in [0, 1] and the best metric lies in [-1, 1]. *)
Theorem mean_dice_in_unit_interval tr va (r : rng) (n : nat) :
  dice_unit ->
  forall s,
    run_epochs tr va n 0 (initial_state r) = Ok s ->
    Forall (λ m, (0 <= m)%Q /\ (m <= 1)%Q) (metric_values s) /\
    (-1 <= best_metric s)%Q /\ (best_metric s <= 1)%Q.
Proof.
  intros Hdice.
  induction n as [|n IH]; intros s' Hrun.
  - inversion Hrun; subst. simpl. split; [constructor|]. split; discriminate.
  - rewrite run_epochs_snoc in Hrun.
    apply bind_Ok in Hrun as (s & Hn & Hepoch).
    destruct (IH s Hn) as (Hall & Hlo & Hhi).
    apply run_epoch_inv in Hepoch as (s1 & Htrain & Hval).
    apply train_phase_inv in Htrain as [_ (Hb & _ & Hm & _ & _)].
    rewrite <- Hb in Hlo, Hhi. rewrite <- Hm in Hall.
    destruct (validates (0 + n)).
    + apply (validation_phase_unit _ _ _ _ Hdice) in Hval
        as (r' & metric & -> & Hge & Hle).
      simpl. split.
      * apply Forall_app. split; [exact Hall|]. constructor; [auto|constructor].
      * destruct (Qgtb metric (best_metric s1)); [|auto].
        split; [|exact Hle].
        apply Qle_trans with (y := 0%Q); [discriminate|exact Hge].
    + subst s'. auto.
Qed.

(** *** The program *)

(** X16: with at most two records in the index (one subject or none) the
    training slice is empty and the program stops at line 123, subscripting
    the [None] that [first(check_loader)] returns, before any epoch. *)
Theorem main_needs_two_subjects dpath (entries : list string) :
  length (load_dataset dpath entries) <= 2 ->
  main dpath entries = Raise TypeError.
Proof.
  intros Hlen. unfold main, train_for, train_on.
  apply data_train_nil_iff in Hlen. rewrite Hlen. reflexivity.
Qed.

(** *** How often the checkpoint is written *)

Lemma run_epoch_checkpoint_count tr va epoch s s' :
  run_epoch tr va epoch s = Ok s' ->
  length (checkpoint s') - length (val_log s')
  <= length (checkpoint s) - length (val_log s) /\
  (validates epoch = false -> checkpoint s' = checkpoint s).
Proof.
  intros Hrun. apply run_epoch_inv in Hrun as (s1 & Htrain & Hval).
  apply train_phase_inv in Htrain as [_ (_ & _ & _ & Hc & Hl)].
  destruct (validates epoch).
  - apply validation_phase_inv in Hval as (r & ? & ? & metric & _ & _ & _ & ->).
    split; [|discriminate].
    rewrite val_log_record_metric, length_app. simpl.
    destruct (Qgtb metric (best_metric s1)); rewrite ?length_app, Hc, Hl; simpl; lia.
  - subst s'. rewrite Hc, Hl. auto.
Qed.

(** X18: the checkpoint is written at most once per validation pass, hence
    at most [n / 2] times in [n] epochs, and an epoch that does not validate
    leaves it alone. *)
Theorem checkpoint_written_at_most_once_per_validation tr va (r : rng) (n : nat) :
  forall s,
    run_epochs tr va n 0 (initial_state r) = Ok s ->
    length (checkpoint s) <= length (val_log s) /\
    length (val_log s) = n / 2 /\
    (forall s', validates n = false ->
       run_epoch tr va n s = Ok s' -> checkpoint s' = checkpoint s).
Proof.
  intros s Hrun.
  assert (Hlen : length (val_log s) = n / 2).
  { destruct (run_epochs_log _ _ _ _ _ _ Hrun) as [Hlog _].
    rewrite <- (length_fmap fst), Hlog, length_app, length_validation_epochs.
    rewrite Nat.Div0.mod_0_l, Nat.add_0_r. reflexivity. }
  split; [|split; [exact Hlen|]].
  - clear Hlen. revert s Hrun. induction n as [|n IH]; intros s' Hrun.
    + inversion Hrun; subst. simpl. lia.
    + rewrite run_epochs_snoc in Hrun.
      apply bind_Ok in Hrun as (s & Hn & Hepoch).
      specialize (IH s Hn).
      apply run_epoch_checkpoint_count in Hepoch as [Hle _]. lia.
  - intros s' Hv Hepoch.
    apply run_epoch_checkpoint_count in Hepoch as [_ Hsame]. exact (Hsame Hv).
Qed.

(** *** The two pipelines *)

End LoopMore2.

Section SplitterMore.

Context {A : Type}.

(** X7: the training slice is empty exactly for at most two records, the
    validation slice exactly for at most one, and the test slice only for an
    empty input. *)
Theorem split_empty_slices (data : list A) :
  (data_train (split_dataset data) = [] <-> length data <= 2) /\
  (data_val (split_dataset data) = [] <-> length data <= 1) /\
  (data_test (split_dataset data) = [] <-> data = []).
Proof.
  split; [apply data_train_nil_iff|].
  split; [apply data_val_nil_iff|].
  rewrite <- !length_zero_iff_nil, length_data_test.
  pose proof (train_test_split_floor (length data)). lia.
Qed.

End SplitterMore.

(** ** The further properties on concrete inputs *)

Lemma toy_dice_unit : dice_unit (F:=toy_framework).
Proof.
  intros p xs. eexists. split; [reflexivity|].
  pose proof (Nat.mod_upper_bound p 3 ltac:(discriminate)) as Hlt.
  unfold Qle. cbn [Qnum Qden]. split; lia.
Qed.

Lemma three_subjects_NoDup : NoDup three_subjects.
Proof. apply (bool_decide_unpack _). vm_compute. exact I. Qed.

Lemma three_subjects_no_sep :
  Forall (λ name, contains "/" name = false) three_subjects.
Proof. repeat constructor. Qed.

(** [load_dataset_listing_order] on three folders listed in two different orders. *)
Lemma load_dataset_listing_order_witness :
  load_dataset repo_dir three_subjects
  = load_dataset repo_dir ["g001"; "g002"; "g003"]%string.
Proof.
  apply load_dataset_listing_order. apply perm_swap.
Defined.

(** [split_separates_subject] on seven subjects, whose training boundary is 9. *)
Lemma split_separates_subject_witness :
  exists subject_base,
    last (data_train (split_dataset (load_dataset repo_dir seven_subjects)))
    = Some {| img := path_join subject_base ["volCentered_L.nii.gz"%string];
              seg := path_join subject_base ["seg_L.nii.gz"%string] |} /\
    head (data_val (split_dataset (load_dataset repo_dir seven_subjects)))
    = Some {| img := path_join subject_base ["volCentered_R.nii.gz"%string];
              seg := path_join subject_base ["seg_R.nii.gz"%string] |}.
Proof.
  exact (split_separates_subject repo_dir seven_subjects 4
           ltac:(vm_compute; reflexivity)).
Defined.

(** [load_dataset_NoDup] on three subjects. *)
Lemma load_dataset_NoDup_witness :
  NoDup (load_dataset repo_dir three_subjects).
Proof.
  exact (load_dataset_NoDup repo_dir three_subjects three_subjects_NoDup
           three_subjects_no_sep).
Defined.

(** A bracket in the checkout path is a pattern character: there [glob]
    matches the directory part against the file system, the case
    [glob_subjects] leaves out. *)
Lemma has_magic_bracket_path :
  has_magic (img_path_dir "/home/user/High[Res]SegMonAI") = true /\
  has_magic (img_path_dir repo_dir) = false.
Proof. split; reflexivity. Qed.

(** [load_dataset_clean_directory] on a listing with an excluded folder and a file that does not match. *)
Lemma load_dataset_clean_directory_witness :
  length (load_dataset repo_dir ("g085" :: "notes.txt" :: three_subjects)%string) = 6.
Proof.
  rewrite (load_dataset_clean_directory repo_dir _
             ltac:(vm_compute; reflexivity) ltac:(vm_compute; reflexivity)).
  vm_compute. reflexivity.
Defined.


(** [split_float_agrees] on fourteen records. *)
Lemma split_float_agrees_witness :
  train_test_split_float 14 = Ok 11%Z /\ train_val_split_float 14 = Ok 9%Z.
Proof.
  exact (split_float_agrees 14 ltac:(unfold float_checked; lia)).
Defined.

(** [train_phase_logs_every_batch] on the three training records of three subjects. *)
Lemma train_phase_logs_every_batch_witness :
  exists s1,
    train_phase (F:=toy_framework) three_subject_train 0 toy_state = Ok s1 /\
    length (epoch_loss_values s1) = 1.
Proof.
  destruct (train_phase_logs_every_batch (F:=toy_framework) three_subject_train
              0 toy_state three_subject_train_nonempty)
    as (s1 & losses & Hrun & _ & _ & Hvals & _).
  exists s1. split; [exact Hrun|]. rewrite Hvals. reflexivity.
Defined.

(** [train_steps_consecutive] on the eight training records of six subjects, two epochs. *)
Lemma train_steps_consecutive_witness :
  exists s,
    run_epochs (F:=toy_framework) six_subject_train six_subject_val 2 0 toy_state
    = Ok s /\
    (train_log s).*1 = [1; 2; 3; 4].
Proof.
  eexists. split; [vm_compute; reflexivity|].
  exact (proj1 (train_steps_consecutive (F:=toy_framework) six_subject_train
                  six_subject_val 0 2 _ ltac:(vm_compute; reflexivity)
                  ltac:(vm_compute; reflexivity))).
Defined.

(** [train_steps_collide] on the three training records of three subjects, two epochs. *)
Lemma train_steps_collide_witness :
  exists s,
    run_epochs (F:=toy_framework) three_subject_train three_subject_val 2 0
      toy_state = Ok s /\
    (train_log s).*1 !! 0 = Some 1 /\ (train_log s).*1 !! 1 = Some 1.
Proof.
  eexists. split; [vm_compute; reflexivity|].
  exact (train_steps_collide (F:=toy_framework) three_subject_train
           three_subject_val 0 2 _ ltac:(vm_compute; discriminate)
           ltac:(lia) ltac:(vm_compute; reflexivity)).
Defined.

(** [checkpoint_holds_best_epoch_model] on eight epochs of the toy run. *)
Lemma checkpoint_holds_best_epoch_model_witness :
  exists s,
    run_epochs (F:=toy_framework) three_subject_train three_subject_val 8 0
      toy_state = Ok s /\
    exists (e : nat) (s_e : train_state),
      best_metric_epoch s = Z.of_nat e /\
      run_epochs (F:=toy_framework) three_subject_train three_subject_val e 0
        toy_state = Ok s_e /\
      last (checkpoint s) = Some (model s_e).
Proof.
  eexists. split; [vm_compute; reflexivity|].
  refine (let H := checkpoint_holds_best_epoch_model (F:=toy_framework)
                     three_subject_train three_subject_val 0 8 _
                     ltac:(vm_compute; reflexivity) in _).
  destruct H as [[Hnone _]|(e & s_e & _ & _ & He & Hrun & Hlast & _)];
    [discriminate Hnone|].
  exists e, s_e. split; [exact He|]. split; [exact Hrun|exact Hlast].
Defined.

(** [mean_dice_in_unit_interval] on four epochs of the toy run. *)
Lemma mean_dice_in_unit_interval_witness :
  exists s,
    run_epochs (F:=toy_framework) three_subject_train three_subject_val 4 0
      toy_state = Ok s /\
    (best_metric s <= 1)%Q.
Proof.
  eexists. split; [vm_compute; reflexivity|].
  refine (let H := mean_dice_in_unit_interval (F:=toy_framework)
                     three_subject_train three_subject_val 0 4 toy_dice_unit _
                     ltac:(vm_compute; reflexivity) in _).
  destruct H as (_ & _ & Hle). exact Hle.
Defined.

(** [main_needs_two_subjects] on a data folder with one subject. *)
Lemma main_needs_two_subjects_witness :
  main (F:=toy_framework) repo_dir ["g001"%string] = Raise TypeError.
Proof.
  exact (main_needs_two_subjects (F:=toy_framework) repo_dir ["g001"%string]
           ltac:(vm_compute; lia)).
Defined.

(** [checkpoint_written_at_most_once_per_validation] on eight epochs of the toy run. *)
Lemma checkpoint_written_at_most_once_per_validation_witness :
  exists s,
    run_epochs (F:=toy_framework) three_subject_train three_subject_val 8 0
      toy_state = Ok s /\
    length (checkpoint s) <= length (val_log s).
Proof.
  eexists. split; [vm_compute; reflexivity|].
  refine (let H := checkpoint_written_at_most_once_per_validation
                     (F:=toy_framework) three_subject_train three_subject_val 0 8 _
                     ltac:(vm_compute; reflexivity) in _).
  destruct H as (Hle & _). exact Hle.
Defined.
